(** * Ranking de Clientes: the aggregation behind the public leaderboard

    A shallow embedding of the [rankedClients] memo of [src/App.js]
    (lines 103-111) and of the amount cell of [RankingPanel] (line 147),
    with the properties of the ranking specification settled against it,
    followed by the sale form, the suggestion box, the links, the admin
    gate, the notice and the edit modal of the same file.

    Modelling choices, all local to this file:

    - a JavaScript string is a [string] of 8-bit characters read as the
      code points U+0000..U+00FF; on that range [toLowerCase] is the map
      [lower_char] below (A-Z and the Latin-1 capitals, the multiplication
      sign left alone);
    - the amounts are modelled twice. For the properties of order and
      of structure (which entry a record goes to, how the leaderboard is
      sorted and cut) a number is [NaN] or an integer [Num z], with the
      [+] and [-] of [Z]. For every property that says what a total is,
      module [F64] redoes the pass on primitive binary64 floats, with
      the addition of doubles applied once per record in input order;
    - a field of a Firestore document that is missing reads as [None]
      (JavaScript [undefined]);
    - the accumulator object [{}] of the [reduce] is an association list
      in insertion order: every key the code uses contains two ['|'], so
      it is never an array index (which [Object.values] would list first)
      nor a property inherited from [Object.prototype];
    - an abrupt completion (a thrown [TypeError]) is the left injection of
      ExtLib's error monad on [sum]. *)

From Stdlib Require Import ZArith List String Ascii Bool Lia.
From Stdlib Require Import Sorted Permutation DecimalString.
From Stdlib Require PrimFloat Uint63.
From ExtLib Require Import Structures.Monad Data.Monads.EitherMonad.
Import ListNotations.
Import MonadNotation.
Local Open Scope monad_scope.
Local Open Scope string_scope.
Local Open Scope Z_scope.

(** ** The JavaScript fragment the code relies on *)

Module JS.

(** Thrown values. The only one the modelled code could raise is the
    [TypeError] of reading a property of [undefined]. *)
Inductive error : Type :=
| TypeError (msg : string).

(** A completion: [inl] is a throw, [inr] a normal value. *)
Definition completion : Type -> Type := sum error.

Inductive number : Type :=
| NaN
| Num (z : Z).

(** [String.prototype.toLowerCase] on one Latin-1 code point. *)
Definition lower_char (c : ascii) : ascii :=
  let n := N_of_ascii c in
  if (((65 <=? n) && (n <=? 90))
      || ((192 <=? n) && (n <=? 222) && negb (n =? 215)))%N
  then ascii_of_N (n + 32)
  else c.

Fixpoint toLowerCase (s : string) : string :=
  match s with
  | EmptyString => EmptyString
  | String c r => String (lower_char c) (toLowerCase r)
  end.

(** [`${v}`] for a value that is a string or [undefined]. *)
Definition template (v : option string) : string :=
  match v with
  | Some s => s
  | None => "undefined"
  end.

(** [v || ''] for a value that is a string or [undefined]: the empty
    string and [undefined] are the falsy ones. *)
Definition or_empty (v : option string) : string :=
  match v with
  | Some s => s
  | None => ""
  end.

(** [v || 0] for a value that is a number or [undefined]: [undefined],
    [NaN] and [0] are falsy. *)
Definition or_zero (v : option number) : Z :=
  match v with
  | Some (Num z) => z
  | Some NaN => 0
  | None => 0
  end.

(** [Number.prototype.toFixed(2)] on an integer. *)
Definition toFixed2 (z : Z) : string :=
  NilZero.string_of_int (Z.to_int z) ++ ".00".

(** *** Plain objects used as maps *)

Section Object.
Context {V : Type}.

Definition object : Type := list (string * V).

(** [o[k]]: [None] is [undefined]. *)
Fixpoint get (k : string) (o : object) : option V :=
  match o with
  | [] => None
  | (k', v) :: r => if String.eqb k k' then Some v else get k r
  end.

(** [o[k] = v]: an existing property keeps its place, a new one goes
    last. *)
Fixpoint set (k : string) (v : V) (o : object) : object :=
  match o with
  | [] => [(k, v)]
  | (k', v') :: r =>
      if String.eqb k k' then (k', v) :: r else (k', v') :: set k v r
  end.

Definition keys (o : object) : list string := map fst o.

(** [Object.values(o)]. *)
Definition values (o : object) : list V := map snd o.

(** [o[k].p] reads a property of [o[k]], which throws when [o[k]] is
    [undefined]. *)
Definition member (k : string) (o : object) : completion V :=
  match get k o with
  | Some v => inr v
  | None => inl (TypeError "Cannot read properties of undefined")
  end.
End Object.
Arguments object : clear implicits.

(** *** Arrays *)

Section Array.
Context {A : Type}.

(** [a.reduce(f, init)] with a callback that may throw. *)
Fixpoint reduce {B : Type} (f : B -> A -> completion B)
    (a : list A) (init : B) : completion B :=
  match a with
  | [] => ret init
  | x :: r => acc <- f init x ;; reduce f r acc
  end.

(** [a.sort(cmp)]: the sort is stable, and [x] stays before [y] unless
    [cmp(x, y) > 0]. Any stable sort gives this list; it is computed
    here by insertion from the right. *)
Fixpoint insert (cmp : A -> A -> Z) (x : A) (l : list A) : list A :=
  match l with
  | [] => [x]
  | y :: r => if 0 <? cmp x y then y :: insert cmp x r else x :: l
  end.

Definition sort (cmp : A -> A -> Z) (a : list A) : list A :=
  fold_right (insert cmp) [] a.

(** [a.slice(start, stop)] for indices that are not negative. *)
Definition slice (start stop : nat) (a : list A) : list A :=
  firstn (stop - start) (skipn start a).

(** [a.map((x, index) => f(x, index))]. *)
Fixpoint map_from (index : nat) {B : Type} (f : A -> nat -> B)
    (a : list A) : list B :=
  match a with
  | [] => []
  | x :: r => f x index :: map_from (S index) f r
  end.

Definition mapi {B : Type} (f : A -> nat -> B) (a : list A) : list B :=
  map_from 0 f a.
End Array.

End JS.

(** ** The application *)

(** A document of the [clients] collection: one sale. *)
Module Sale.
Record t : Type := mk {
  firstName : option string;
  lastName : option string;
  instagram : option string;
  valor : option JS.number
}.
End Sale.

(** An aggregated client, the value stored under its identifier. *)
Module Client.
Record t : Type := mk {
  firstName : option string;
  lastName : option string;
  instagram : option string;
  totalValor : Z;
  id : string
}.

(** [c.totalValor += v]. *)
Definition add (c : t) (v : Z) : t :=
  mk (firstName c) (lastName c) (instagram c) (totalValor c + v) (id c).
End Client.

Module App.
Import JS.

(** Line 105. *)
Definition identifier (sale : Sale.t) : string :=
  toLowerCase
    (template (Sale.firstName sale) ++ "|"
     ++ template (Sale.lastName sale) ++ "|"
     ++ or_empty (Sale.instagram sale)).

(** The object literal of line 106. *)
Definition fresh (sale : Sale.t) : Client.t :=
  Client.mk (Sale.firstName sale) (Sale.lastName sale)
    (Sale.instagram sale) 0 (identifier sale).

(** The callback of the [reduce], lines 104-109. *)
Definition reducer (acc : object Client.t) (sale : Sale.t)
    : completion (object Client.t) :=
  let identifier := identifier sale in
  let acc :=
    match get identifier acc with
    | None => set identifier (fresh sale) acc
    | Some _ => acc
    end in
  c <- member identifier acc ;;
  ret (set identifier (Client.add c (or_zero (Sale.valor sale))) acc).

Definition clientTotals (clients : list Sale.t)
    : completion (object Client.t) :=
  reduce reducer clients [].

(** The comparator of line 110. *)
Definition byTotalDesc (a b : Client.t) : Z :=
  Client.totalValor b - Client.totalValor a.

(** Lines 103-111. *)
Definition rankedClients (clients : list Sale.t)
    : completion (list Client.t) :=
  totals <- clientTotals clients ;;
  ret (slice 0 10 (sort byTotalDesc (values totals))).

(** *** The ranking panel, line 147 *)

Inductive amount : Type :=
| Shown (text : string)
| ValorPrivado.

Record row : Type := mkRow {
  position : nat;
  colour : string;
  rowFirstName : option string;
  rowLastName : option string;
  cell : amount
}.

Inductive panel : Type :=
| RankingVazio
| Ranking (rows : list row).

Definition rankColors : list string :=
  ["text-yellow-400"; "text-gray-300"; "text-yellow-600"].

Definition renderRow (client : Client.t) (index : nat) : row :=
  mkRow (index + 1)
    (nth index rankColors "text-gray-400")
    (Client.firstName client) (Client.lastName client)
    (if (index <? 3)%nat
     then Shown ("R$ " ++ toFixed2 (Client.totalValor client))
     else ValorPrivado).

Definition RankingPanel (clients : list Client.t) : panel :=
  if (List.length clients =? 0)%nat then RankingVazio
  else Ranking (mapi renderRow clients).

End App.

(** ** The vocabulary of the ranking specification

    These definitions follow the words of the specification, not the
    code; the theorems compare the two. *)

Module Spec.
Import JS.

(** White space that [trim] removes, on Latin-1: tab to carriage
    return, space, no-break space. *)
Definition is_space (c : ascii) : bool :=
  let n := N_of_ascii c in
  (((9 <=? n) && (n <=? 13)) || (n =? 32) || (n =? 160))%N.

(** Empty after trimming. *)
Fixpoint blank (s : string) : bool :=
  match s with
  | EmptyString => true
  | String c r => is_space c && blank r
  end.

(** A required name: present and not empty after trimming. *)
Definition named (v : option string) : bool :=
  match v with
  | Some s => negb (blank s)
  | None => false
  end.

Definition numeric (v : option number) : bool :=
  match v with
  | Some (Num _) => true
  | Some NaN => false
  | None => false
  end.

(** A record that is valid for aggregation; a malformed one is one that
    is not. *)
Definition valid (s : Sale.t) : bool :=
  named (Sale.firstName s) && named (Sale.lastName s)
  && numeric (Sale.valor s).

(** The amount of a record, a missing one counting as zero. *)
Definition amount (s : Sale.t) : Z := or_zero (Sale.valor s).

Definition sum (l : list Z) : Z := fold_right Z.add 0 l.

(** The case-insensitive identity tuple
    [(firstName, lastName, handle-or-empty)]. *)
Definition identity (s : Sale.t)
    : option string * option string * string :=
  (option_map toLowerCase (Sale.firstName s),
   option_map toLowerCase (Sale.lastName s),
   toLowerCase (or_empty (Sale.instagram s))).

(** Equal up to letter case. *)
Definition same_letters (a b : string) : Prop :=
  toLowerCase a = toLowerCase b.

Definition same_name (a b : option string) : Prop :=
  match a, b with
  | Some x, Some y => same_letters x y
  | None, None => True
  | _, _ => False
  end.

Definition same_client (s1 s2 : Sale.t) : Prop :=
  same_name (Sale.firstName s1) (Sale.firstName s2)
  /\ same_name (Sale.lastName s1) (Sale.lastName s2)
  /\ same_letters (or_empty (Sale.instagram s1))
       (or_empty (Sale.instagram s2)).

(** The separator of the joined key occurs in the string. *)
Fixpoint has_sep (s : string) : bool :=
  match s with
  | EmptyString => false
  | String c r => Ascii.eqb c "|" || has_sep r
  end.

(** Both names are present and no field holds the separator. *)
Definition sep_free (s : Sale.t) : Prop :=
  (exists f, Sale.firstName s = Some f /\ has_sep f = false)
  /\ (exists l, Sale.lastName s = Some l /\ has_sep l = false)
  /\ has_sep (or_empty (Sale.instagram s)) = false.

(** The records of [clients] that the aggregation files under key [k],
    and what they add up to. *)
Definition sharing (k : string) (clients : list Sale.t) : list Sale.t :=
  filter (fun s => String.eqb (App.identifier s) k) clients.

Definition total_of (k : string) (clients : list Sale.t) : Z :=
  sum (map amount (sharing k clients)).

(** The first record of [clients] filed under key [k]. *)
Definition first_seen (k : string) (clients : list Sale.t)
    : option Sale.t :=
  find (fun s => String.eqb (App.identifier s) k) clients.

Definition totals (l : list Client.t) : Z :=
  sum (map Client.totalValor l).


(** The entries of the grouped set stored under key [k]. *)
Definition entries_for (k : string) (o : object Client.t)
    : object Client.t :=
  filter (fun kc => String.eqb (fst kc) k) o.

(** The displayed fields of [c] are those of the record [s]. *)
Definition copied_from (c : Client.t) (s : Sale.t) : Prop :=
  Client.firstName c = Sale.firstName s
  /\ Client.lastName c = Sale.lastName s
  /\ Client.instagram c = Sale.instagram s.

(** Two records of [clients] end up in one entry of the grouped set. *)
Definition same_entry (clients : list Sale.t) (s1 s2 : Sale.t) : Prop :=
  exists acc c,
    App.clientTotals clients = inr acc
    /\ get (App.identifier s1) acc = Some c
    /\ get (App.identifier s2) acc = Some c.

(** *** Two sentences of the specification, as they are written *)

(** Same key exactly when same identity tuple. *)
Definition key_sound (s1 s2 : Sale.t) : Prop :=
  App.identifier s1 = App.identifier s2 <-> identity s1 = identity s2.

(** The displayed fields come from the last record of the identity. *)
Definition materialized_from_last (clients : list Sale.t) : Prop :=
  forall l1 s l2 acc c,
    clients = (l1 ++ s :: l2)%list ->
    (forall x, In x l2 -> App.identifier x <> App.identifier s) ->
    App.clientTotals clients = inr acc ->
    get (App.identifier s) acc = Some c ->
    copied_from c s.
End Spec.

Import JS App Spec.

(** The identity tuples can be told apart. *)
Definition identity_dec (a b : option string * option string * string)
    : {a = b} + {a <> b}.
Proof. repeat decide equality. Defined.

(** The distinct client identities among the records. *)
Definition identities (clients : list Sale.t)
    : list (option string * option string * string) :=
  nodup identity_dec (map identity clients).

(** The bounding sentence of the specification, as it is written: as many
    entries as distinct identities, ten at most. *)
Definition bounded_by_identities (clients : list Sale.t) : Prop :=
  exists out,
    rankedClients clients = inr out
    /\ List.length out = Nat.min (List.length (identities clients)) 10.

(** The accumulation step as a plain function: what [reducer] returns. *)
Definition step (acc : object Client.t) (s : Sale.t) : object Client.t :=
  let k := identifier s in
  let c := match get k acc with Some c => c | None => fresh s end in
  set k (Client.add c (amount s)) acc.

(** ** The amounts as the code has them: IEEE 754 doubles

    The sums of the aggregation are taken in binary64, one addition per
    record, in the order of the input. This module is the same pass with
    [totalValor] a primitive [float] and [+] the addition of doubles, so
    that fractions, rounding, infinities and [NaN] are those of the
    program. *)

Module F64.
Import JS.

(** ToBoolean of a number: [NaN], [+0] and [-0] are the falsy ones. *)
Definition truthy (x : PrimFloat.float) : bool :=
  match PrimFloat.classify x with
  | FloatClass.NaN | FloatClass.PZero | FloatClass.NZero => false
  | _ => true
  end.

(** [v || 0] for a value that is a number or [undefined]. *)
Definition or_zero (v : option PrimFloat.float) : PrimFloat.float :=
  match v with
  | Some x => if truthy x then x else PrimFloat.zero
  | None => PrimFloat.zero
  end.

Module Sale.
Record t : Type := mk {
  firstName : option string;
  lastName : option string;
  instagram : option string;
  valor : option PrimFloat.float
}.
End Sale.

Module Client.
Record t : Type := mk {
  firstName : option string;
  lastName : option string;
  instagram : option string;
  totalValor : PrimFloat.float;
  id : string
}.

(** [c.totalValor += v], an addition of doubles. *)
Definition add (c : t) (v : PrimFloat.float) : t :=
  mk (firstName c) (lastName c) (instagram c)
    (PrimFloat.add (totalValor c) v) (id c).
End Client.

(** Line 105. *)
Definition identifier (sale : Sale.t) : string :=
  toLowerCase
    (template (Sale.firstName sale) ++ "|"
     ++ template (Sale.lastName sale) ++ "|"
     ++ or_empty (Sale.instagram sale)).

(** The object literal of line 106. *)
Definition fresh (sale : Sale.t) : Client.t :=
  Client.mk (Sale.firstName sale) (Sale.lastName sale)
    (Sale.instagram sale) PrimFloat.zero (identifier sale).

(** The callback of the [reduce], lines 104-109. *)
Definition reducer (acc : object Client.t) (sale : Sale.t)
    : completion (object Client.t) :=
  let identifier := identifier sale in
  let acc :=
    match get identifier acc with
    | None => set identifier (fresh sale) acc
    | Some _ => acc
    end in
  c <- member identifier acc ;;
  ret (set identifier (Client.add c (or_zero (Sale.valor sale))) acc).

Definition clientTotals (clients : list Sale.t)
    : completion (object Client.t) :=
  reduce reducer clients [].

(** The comparator of line 110, a difference of doubles. *)
Definition byTotalDesc (a b : Client.t) : PrimFloat.float :=
  PrimFloat.sub (Client.totalValor b) (Client.totalValor a).

(** [a.sort(cmp)] with a comparator that returns a double: stable, [x]
    staying before [y] unless [cmp(x, y) > 0], a [NaN] result counting as
    zero. *)
Fixpoint insert {A : Type} (cmp : A -> A -> PrimFloat.float) (x : A) (l : list A)
    : list A :=
  match l with
  | [] => [x]
  | y :: r =>
      if PrimFloat.ltb PrimFloat.zero (cmp x y) then y :: insert cmp x r
      else x :: l
  end.

Definition sort {A : Type} (cmp : A -> A -> PrimFloat.float) (a : list A) : list A :=
  fold_right (insert cmp) [] a.

(** Lines 103-111. *)
Definition rankedClients (clients : list Sale.t)
    : completion (list Client.t) :=
  totals <- clientTotals clients ;;
  ret (slice 0 10 (sort byTotalDesc (values totals))).

(** The amount cell of a row, line 147: the text [R$] and
    [x.toFixed(2)], kept as the number [x] it prints, or the sentinel. *)
Inductive amount : Type :=
| Shown (x : PrimFloat.float)
| ValorPrivado.

Record row : Type := mkRow {
  position : nat;
  rowFirstName : option string;
  rowLastName : option string;
  cell : amount
}.

Inductive panel : Type :=
| RankingVazio
| Ranking (rows : list row).

Definition renderRow (client : Client.t) (index : nat) : row :=
  mkRow (index + 1)
    (Client.firstName client) (Client.lastName client)
    (if (index <? 3)%nat then Shown (Client.totalValor client)
     else ValorPrivado).

Definition RankingPanel (clients : list Client.t) : panel :=
  if (List.length clients =? 0)%nat then RankingVazio
  else Ranking (mapi renderRow clients).

(** [uniqueClients], line 150. *)
Fixpoint unseen (seen : list string) (allClients : list Sale.t)
    : list Sale.t :=
  match allClients with
  | [] => []
  | c :: r =>
      let id := identifier c in
      if existsb (String.eqb id) seen then unseen seen r
      else c :: unseen (id :: seen) r
  end.

Definition uniqueClients (allClients : list Sale.t) : list Sale.t :=
  unseen [] allClients.

(** *** The vocabulary of the specification, on doubles *)

(** The double of a natural number below 2^63. *)
Definition ofZ (z : Z) : PrimFloat.float := PrimFloat.of_uint63 (Uint63.of_Z z).

(** [x < 0]. *)
Definition negative (x : PrimFloat.float) : bool :=
  match PrimFloat.classify x with
  | FloatClass.NInf | FloatClass.NNormal | FloatClass.NSubn => true
  | _ => false
  end.

Definition numeric (v : option PrimFloat.float) : bool :=
  match v with
  | Some x => match PrimFloat.classify x with FloatClass.NaN => false | _ => true end
  | None => false
  end.

Definition valid (s : Sale.t) : bool :=
  Spec.named (Sale.firstName s) && Spec.named (Sale.lastName s)
  && numeric (Sale.valor s).

Definition amount_of (s : Sale.t) : PrimFloat.float := or_zero (Sale.valor s).

(** The sum of a list of doubles, added from the left, from [0]. *)
Definition sum (l : list PrimFloat.float) : PrimFloat.float :=
  fold_left PrimFloat.add l PrimFloat.zero.

(** The records filed under key [k], in the order of the input. *)
Definition sharing (k : string) (clients : list Sale.t) : list Sale.t :=
  filter (fun s => String.eqb (identifier s) k) clients.

(** What the records filed under [k] add up to, in that order. *)
Definition total_of (k : string) (clients : list Sale.t) : PrimFloat.float :=
  sum (map amount_of (sharing k clients)).

Definition entries_for (k : string) (o : object Client.t)
    : object Client.t :=
  filter (fun kc => String.eqb (fst kc) k) o.

Definition same_client (s1 s2 : Sale.t) : Prop :=
  Spec.same_name (Sale.firstName s1) (Sale.firstName s2)
  /\ Spec.same_name (Sale.lastName s1) (Sale.lastName s2)
  /\ Spec.same_letters (or_empty (Sale.instagram s1))
       (or_empty (Sale.instagram s2)).

(** The accumulation step as a plain function. *)
Definition step (acc : object Client.t) (s : Sale.t) : object Client.t :=
  let k := identifier s in
  let c := match get k acc with Some c => c | None => fresh s end in
  set k (Client.add c (amount_of s)) acc.

(** An entry after the amounts of the records [l] were added to it. *)
Definition added (c : Client.t) (l : list Sale.t) : Client.t :=
  fold_left (fun c s => Client.add c (amount_of s)) l c.

(** Two sentences of the specification, as they are written. *)
Definition sums_valid_only (clients : list Sale.t) : Prop :=
  exists acc,
    clientTotals clients = inr acc
    /\ sum (map Client.totalValor (values acc)) =
       sum (map amount_of (filter valid clients)).

Definition excludes_malformed (clients : list Sale.t) : Prop :=
  clientTotals clients = clientTotals (filter valid clients).

End F64.

(** Sample records with double amounts. *)
Module F64Sample.
Definition sale (f l : string) (v : Z) : F64.Sale.t :=
  F64.Sale.mk (Some f) (Some l) None (Some (F64.ofZ v)).

Definition ana : F64.Sale.t := sale "Ana" "Silva" 100.
Definition ana_caps : F64.Sale.t := sale "ana" "SILVA" 50.
Definition bruno : F64.Sale.t :=
  F64.Sale.mk (Some "Bruno") (Some "Costa") (Some "@b")
    (Some (F64.ofZ 30)).
Definition unnamed : F64.Sale.t :=
  F64.Sale.mk None (Some "Silva") None (Some (F64.ofZ 5)).
Definition empty_name : F64.Sale.t := sale "" "Silva" 5.
Definition blank_name : F64.Sale.t := sale "  " "Silva" 5.
Definition no_amount : F64.Sale.t :=
  F64.Sale.mk (Some "Ana") (Some "Silva") None None.
Definition nan_amount : F64.Sale.t :=
  F64.Sale.mk (Some "Ana") (Some "Silva") None (Some PrimFloat.nan).

(** 2^53, where the doubles stop holding every integer, and 1. *)
Definition big : F64.Sale.t := sale "x" "y" 9007199254740992.
Definition one : F64.Sale.t := sale "x" "y" 1.

(** Ten cents and twenty cents. *)
Definition dime : F64.Sale.t :=
  F64.Sale.mk (Some "x") (Some "y") None
    (Some (PrimFloat.div (F64.ofZ 1) (F64.ofZ 10))).
Definition two_dimes : F64.Sale.t :=
  F64.Sale.mk (Some "x") (Some "y") None
    (Some (PrimFloat.div (F64.ofZ 2) (F64.ofZ 10))).

Definition refund : F64.Sale.t :=
  F64.Sale.mk (Some "Ana") (Some "Silva") None
    (Some (PrimFloat.opp (F64.ofZ 120))).
Definition boundless : F64.Sale.t :=
  F64.Sale.mk (Some "Ana") (Some "Silva") None (Some PrimFloat.infinity).
End F64Sample.

(** Sample records. *)
Module Sample.
Definition sale (f l : string) (v : Z) : Sale.t :=
  Sale.mk (Some f) (Some l) None (Some (Num v)).

Definition ana : Sale.t := sale "Ana" "Silva" 100.
Definition ana_caps : Sale.t := sale "ana" "SILVA" 50.
Definition bruno : Sale.t :=
  Sale.mk (Some "Bruno") (Some "Costa") (Some "@b") (Some (Num 30)).

(** No first name, an empty one, a blank one; no amount, a [NaN] one. *)
Definition unnamed : Sale.t :=
  Sale.mk None (Some "Silva") None (Some (Num 5)).
Definition empty_name : Sale.t := sale "" "Silva" 5.
Definition blank_name : Sale.t := sale "  " "Silva" 5.
Definition no_amount : Sale.t :=
  Sale.mk (Some "Ana") (Some "Silva") None None.
Definition nan_amount : Sale.t :=
  Sale.mk (Some "Ana") (Some "Silva") None (Some NaN).

(** Two clients whose fields hold the separator. *)
Definition pipe_first : Sale.t := sale "a|b" "c" 1.
Definition pipe_last : Sale.t := sale "a" "b|c" 2.

Definition refund : Sale.t := sale "Ana" "Silva" (-120).

(** Fifteen clients with the totals 15, 14, ..., 1. *)
Definition fifteen : list Sale.t :=
  map (fun n => sale "c" (toFixed2 (Z.of_nat n)) (Z.of_nat n))
    (rev (seq 1 15)).
End Sample.

(** ** The rest of [App.js]: forms, suggestions, links and gates *)

(** String methods the forms use. *)
Module Str.

(** White space and line terminators on Latin-1, what [trim] removes. *)
Definition isWhiteSpace (c : ascii) : bool :=
  let n := N_of_ascii c in
  (((9 <=? n) && (n <=? 13)) || (n =? 32) || (n =? 160))%N.

Fixpoint allWhite (s : string) : bool :=
  match s with
  | EmptyString => true
  | String c r => isWhiteSpace c && allWhite r
  end.

Fixpoint trimStart (s : string) : string :=
  match s with
  | EmptyString => EmptyString
  | String c r => if isWhiteSpace c then trimStart r else s
  end.

Fixpoint trimEnd (s : string) : string :=
  match s with
  | EmptyString => EmptyString
  | String c r =>
      if isWhiteSpace c && allWhite r then EmptyString
      else String c (trimEnd r)
  end.

(** [s.trim()]. *)
Definition trim (s : string) : string := trimEnd (trimStart s).

(** [!s] for a string: only the empty one is falsy. *)
Definition isEmpty (s : string) : bool := String.eqb s "".

(** [!v] for a string or [undefined]. *)
Definition falsy (v : option string) : bool :=
  match v with
  | Some s => isEmpty s
  | None => true
  end.

(** [s.startsWith(p)]. *)
Definition startsWith (s p : string) : bool := String.prefix p s.

(** [s.replace(c, '')] for a one-character pattern: the first occurrence
    goes. *)
Fixpoint removeFirst (c : ascii) (s : string) : string :=
  match s with
  | EmptyString => EmptyString
  | String d r => if Ascii.eqb d c then r else String d (removeFirst c r)
  end.

Definition isDigit (c : ascii) : bool :=
  let n := N_of_ascii c in ((48 <=? n) && (n <=? 57))%N.

Fixpoint allDigits (s : string) : bool :=
  match s with
  | EmptyString => true
  | String c r => isDigit c && allDigits r
  end.

(** [s.replace(/\D/g, '')]. *)
Fixpoint removeNonDigits (s : string) : string :=
  match s with
  | EmptyString => EmptyString
  | String c r =>
      if isDigit c then String c (removeNonDigits r) else removeNonDigits r
  end.

(** [v.toLowerCase()] on a string or [undefined]: a method call on
    [undefined] throws. *)
Definition lowerOf (v : option string) : JS.completion string :=
  match v with
  | Some s => inr (JS.toLowerCase s)
  | None =>
      inl (JS.TypeError "Cannot read properties of undefined")
  end.

(** [a.filter(p)] with a predicate that may throw. *)
Fixpoint filterE {A : Type} (p : A -> JS.completion bool) (a : list A)
    : JS.completion (list A) :=
  match a with
  | [] => ret []
  | x :: r =>
      b <- p x ;;
      rest <- filterE p r ;;
      ret (if b then x :: rest else rest)
  end.

End Str.

(** The state of the sale form. The two names are strings unless a
    suggestion without one was clicked. *)
Module Form.
Record t : Type := mk {
  firstName : option string;
  lastName : option string;
  instagram : string;
  valor : string
}.

(** The [name] of the input an event comes from. *)
Inductive input : Type :=
| FirstName
| LastName
| Instagram
| Valor.

(** [{...prev, [name]: value}]. *)
Definition set (prev : t) (name : input) (value : string) : t :=
  match name with
  | FirstName => mk (Some value) (lastName prev) (instagram prev) (valor prev)
  | LastName => mk (firstName prev) (Some value) (instagram prev) (valor prev)
  | Instagram => mk (firstName prev) (lastName prev) value (valor prev)
  | Valor => mk (firstName prev) (lastName prev) (instagram prev) value
  end.
End Form.

(** [SalesManagement], line 150. *)
Module Sales.
Import JS Str.

(** The callback of [uniqueClients], with the [Set] as the list of the
    identifiers added so far. *)
Fixpoint unseen (seen : list string) (allClients : list Sale.t)
    : list Sale.t :=
  match allClients with
  | [] => []
  | c :: r =>
      let id := App.identifier c in
      if existsb (String.eqb id) seen then unseen seen r
      else c :: unseen (id :: seen) r
  end.

Definition uniqueClients (allClients : list Sale.t) : list Sale.t :=
  unseen [] allClients.

Record state : Type := mkState {
  formState : Form.t;
  suggestions : list Sale.t;
  showSuggestions : bool
}.

(** The predicate of the suggestion filter. *)
Definition suggested (value : string) (c : Sale.t) : completion bool :=
  f <- lowerOf (Sale.firstName c) ;;
  if startsWith f (toLowerCase value) then ret true
  else
    l <- lowerOf (Sale.lastName c) ;;
    ret (startsWith l (toLowerCase value)).

Definition handleFormChange (allClients : list Sale.t) (st : state)
    (name : Form.input) (value : string) : completion state :=
  let form := Form.set (formState st) name value in
  match name with
  | Form.FirstName =>
      if isEmpty (trim value)
      then ret (mkState form (suggestions st) false)
      else
        filtered <- filterE (suggested value) (uniqueClients allClients) ;;
        ret (mkState form filtered true)
  | _ => ret (mkState form (suggestions st) (showSuggestions st))
  end.

Definition handleSuggestionClick (st : state) (c : Sale.t) : state :=
  mkState
    (Form.mk (Sale.firstName c) (Sale.lastName c)
       (or_empty (Sale.instagram c)) (Form.valor (formState st)))
    (suggestions st) false.

(** The handle as it is stored. *)
Definition finalInstagram (instagram : string) : string :=
  let finalInstagram := trim instagram in
  if negb (isEmpty finalInstagram) && negb (startsWith finalInstagram "@")
  then "@" ++ finalInstagram
  else finalInstagram.

Section AddClient.
(** [parseFloat] is left open: the results below hold whatever number it
    reads from the text of the amount. *)
Variable parseFloat : string -> number.

(** The document [handleAddClient] hands to [addDoc], without its
    [createdAt]; [None] when the handler returns before. [db] tells
    whether the database handle is set. *)
Definition handleAddClient (db : bool) (form : Form.t) : option Sale.t :=
  match Form.firstName form, Form.lastName form with
  | Some firstName, Some lastName =>
      if isEmpty firstName || isEmpty lastName
         || isEmpty (Form.valor form) || negb db
      then None
      else
        Some (Sale.mk (Some (trim firstName)) (Some (trim lastName))
                (Some (finalInstagram (Form.instagram form)))
                (Some (parseFloat (Form.valor form))))
  | _, _ => None
  end.
End AddClient.

(** A document of [allClients] with its creation time, in milliseconds. *)
Record doc : Type := mkDoc {
  docId : string;
  data : Sale.t;
  createdAt : Z
}.

Definition byCreatedAtDesc (a b : doc) : Z := createdAt b - createdAt a.

Definition sortedClients (allClients : list doc) : list doc :=
  sort byCreatedAtDesc allClients.

End Sales.

(** The Instagram link of a row of the ranking panel, line 147. *)
Module Links.
Import JS Str.

Definition instagramHref (client : Client.t) : option string :=
  match Client.instagram client with
  | Some handle =>
      if isEmpty handle then None
      else Some ("https://instagram.com/" ++ removeFirst "@" handle)
  | None => None
  end.
End Links.

(** [WhatsappManagement] and the links of [Navigation], lines 146, 152. *)
Module Whatsapp.
Import JS Str.

Record t : Type := mk {
  number : string;
  label : string;
  isActive : bool
}.

Definition handleAddNumber (db : bool) (newNumber newLabel : string)
    : option t :=
  if isEmpty newNumber || isEmpty newLabel || negb db then None
  else Some (mk (removeNonDigits newNumber) newLabel true).

(** The update of [handleToggle]. *)
Definition handleToggle (num : t) : t :=
  mk (number num) (label num) (negb (isActive num)).

(** Line 93. *)
Definition activeWhatsappNumbers (docs : list t) : list t :=
  filter isActive docs.

(** The [href]s of the green buttons. *)
Definition navigationLinks (activeWhatsappNumbers : list t) : list string :=
  map (fun num => "https://wa.me/" ++ number num) activeWhatsappNumbers.
End Whatsapp.

(** The admin gate: [renderPage], [handleAdminLogin] and
    [AdminKeyPromptModal], lines 101, 113-123, 158. *)
Module Admin.
Import JS Str.

Inductive page : Type :=
| ranking
| dashboard.

Record app : Type := mkApp {
  currentPage : page;
  isAdminAuthenticated : bool;
  error : string;
  isLoading : bool
}.

Inductive view : Type :=
| ErrorBox (message : string)
| LoadingSpinner
| AdminDashboard
| AdminKeyPromptModal
| RankingPanel.

Definition renderPage (a : app) : view :=
  if negb (isEmpty (error a)) then ErrorBox (error a)
  else if isLoading a then LoadingSpinner
  else
    match currentPage a with
    | dashboard =>
        if isAdminAuthenticated a then AdminDashboard
        else AdminKeyPromptModal
    | ranking => RankingPanel
    end.

Definition ADMIN_KEY : string := "aK7pL3sR9jVcBmN5wXyZ2oDqE".

(** The message of line 81; its c with cedilla is the code point 231. *)
Definition erroRanking : string :=
  "Erro ao carregar o ranking. Verifique as regras de seguran"
  ++ String (ascii_of_N 231) "a do Firestore.".

(** The state of the key prompt. *)
Record prompt : Type := mkPrompt {
  inputKey : string;
  promptError : string
}.

Definition mounted : prompt := mkPrompt "" "".

Definition setPage (a : app) (p : page) : app :=
  mkApp p (isAdminAuthenticated a) (error a) (isLoading a).

Definition handleAdminLogin (a : app) : app :=
  mkApp (currentPage a) true (error a) (isLoading a).

Definition handleConfirm (a : app) (m : prompt) : app * prompt :=
  if String.eqb (inputKey m) ADMIN_KEY then (handleAdminLogin a, m)
  else (a, mkPrompt "" "Chave de acesso incorreta!").

(** What a visitor can do, and the two callbacks of the clients
    listener (lines 78-81), which end the loading. The prompt's events
    reach it only while it is on screen, [Enter] being the same as the
    unlock button; it is mounted anew each time it comes back. *)
Inductive event : Type :=
| ClickAdmin
| ClickRankingPublico
| TypeKey (value : string)
| ClickDesbloquear
| ClickVoltar
| ClientsSnapshot
| ClientsError.

Definition onPrompt (a : app) : bool :=
  match renderPage a with
  | AdminKeyPromptModal => true
  | _ => false
  end.

Definition step (s : app * prompt) (e : event) : app * prompt :=
  let (a, m) := s in
  let (a', m') :=
    match e with
    | ClickAdmin => (setPage a dashboard, m)
    | ClickRankingPublico => (setPage a ranking, m)
    | TypeKey value =>
        if onPrompt a then (a, mkPrompt value "") else (a, m)
    | ClickDesbloquear => if onPrompt a then handleConfirm a m else (a, m)
    | ClickVoltar => if onPrompt a then (setPage a ranking, m) else (a, m)
    | ClientsSnapshot =>
        (mkApp (currentPage a) (isAdminAuthenticated a) (error a) false, m)
    | ClientsError =>
        (mkApp (currentPage a) (isAdminAuthenticated a) erroRanking false,
         m)
    end in
  (a', if onPrompt a' then m' else mounted).

Definition run (s : app * prompt) (events : list event) : app * prompt :=
  fold_left step events s.

(** The keys typed during a session. *)
Fixpoint typed (events : list event) : list string :=
  match events with
  | [] => []
  | TypeKey value :: r => value :: typed r
  | _ :: r => typed r
  end.
End Admin.

(** The broadcast notice: the snapshot listener of lines 83-90 and
    [handleCloseNotice], line 100. *)
Module Notice.
Import JS Str.

(** The notice document, with the [id] the listener gives it. *)
Record data : Type := mkData {
  id : string;
  htmlContent : string;
  isActive : bool
}.

Record app : Type := mkApp {
  notice : option data;
  showNoticeModal : bool;
  noticeDismissedId : option string
}.

(** [useState({ htmlContent: '', isActive: false, id: null })], with an
    empty session storage. *)
Definition initial : app := mkApp None false None.

(** The listener; [None] is a snapshot of a document that does not
    exist. *)
Definition onSnapshot (a : app) (docSnapshot : option data) : app :=
  match docSnapshot with
  | Some noticeData =>
      let isDismissed :=
        match noticeDismissedId a with
        | Some d => String.eqb d (id noticeData)
        | None => false
        end in
      mkApp (Some noticeData)
        (if isActive noticeData && negb isDismissed then true
         else showNoticeModal a)
        (noticeDismissedId a)
  | None => a
  end.

(** [sessionStorage.setItem] stores the text of its argument: ["null"]
    for the [id] of the initial state. *)
Definition handleCloseNotice (a : app) : app :=
  mkApp (notice a) false
    (Some match notice a with
          | Some n => id n
          | None => "null"
          end).
End Notice.

(** [EditClientModal.handleSave], line 156, on documents with fields of
    any kind. *)
Module Edit.
Import JS.

Section Save.
Context {V : Type}.
(** [parseFloat] of a field that may be missing, left open. *)
Variable parseFloat : option V -> V.

(** [delete o[k]]. *)
Definition delete (k : string) (o : object V) : object V :=
  filter (fun kv => negb (String.eqb (fst kv) k)) o.

(** The data handed to [onSave]. *)
Definition handleSave (formData : object V) : object V :=
  let data := set "valor" (parseFloat (get "valor" formData)) formData in
  delete "totalValor" (delete "createdAt" (delete "id" data)).
End Save.
End Edit.

(** The row shows an amount. *)
Definition disclosed (r : row) : bool :=
  match cell r with
  | Shown _ => true
  | ValorPrivado => false
  end.

(** A name begins with the typed text, up to letter case. *)
Definition begins (value : string) (name : option string) : Prop :=
  exists n p r,
    name = Some n /\ n = (p ++ r)%string /\ same_letters p value.

(** The entry that the pass makes for the records of one client. *)
Definition entry_of (cs : list Sale.t) (s : Sale.t) : Client.t :=
  Client.add (fresh s) (total_of (identifier s) cs).

(** ** Objects as maps *)

Local Open Scope list_scope.

Section ObjectFacts.
Context {V : Type}.
Implicit Types (o : object V) (k : string) (v : V).

Lemma get_set o k k' v :
  get k (set k' v o) = if String.eqb k k' then Some v else get k o.
Proof.
  induction o as [|[k0 v0] o IH]; simpl.
  - destruct (String.eqb_spec k k'); reflexivity.
  - destruct (String.eqb_spec k' k0) as [->|Hne]; simpl.
    + destruct (String.eqb_spec k k0); reflexivity.
    + rewrite IH.
      destruct (String.eqb_spec k k0) as [->|]; [|reflexivity].
      destruct (String.eqb_spec k0 k'); congruence.
Qed.

Lemma get_set_same o k v : get k (set k v o) = Some v.
Proof. rewrite get_set, String.eqb_refl. reflexivity. Qed.

Lemma set_set o k v v' : set k v' (set k v o) = set k v' o.
Proof.
  induction o as [|[k0 v0] o IH]; simpl.
  - rewrite String.eqb_refl. reflexivity.
  - destruct (String.eqb_spec k k0) as [->|Hne]; simpl.
    + rewrite String.eqb_refl. reflexivity.
    + destruct (String.eqb_spec k k0); [contradiction|].
      rewrite IH. reflexivity.
Qed.

Lemma in_keys_set o k k' v :
  In k' (keys (set k v o)) <-> k' = k \/ In k' (keys o).
Proof.
  unfold keys. induction o as [|[k0 v0] o IH]; simpl.
  - intuition.
  - destruct (String.eqb_spec k k0) as [->|Hne]; simpl.
    + intuition.
    + rewrite IH. intuition.
Qed.

Lemma NoDup_keys_set o k v : NoDup (keys o) -> NoDup (keys (set k v o)).
Proof.
  unfold keys. induction o as [|[k0 v0] o IH]; simpl; intros Hnd.
  - constructor; [intros []|constructor].
  - inversion Hnd as [|? ? Hnotin Hnd']; subst.
    destruct (String.eqb_spec k k0) as [->|Hne]; simpl.
    + constructor; assumption.
    + constructor; [|auto].
      intros Hin. apply (in_keys_set o k k0 v) in Hin.
      destruct Hin; [congruence|contradiction].
Qed.

Lemma get_In o k v : get k o = Some v -> In (k, v) o.
Proof.
  induction o as [|[k0 v0] o IH]; simpl; [discriminate|].
  destruct (String.eqb_spec k k0) as [->|Hne]; intros H.
  - left. congruence.
  - right. auto.
Qed.

Lemma In_get o k v : NoDup (keys o) -> In (k, v) o -> get k o = Some v.
Proof.
  unfold keys. induction o as [|[k0 v0] o IH]; simpl; [intros _ []|].
  intros Hnd [Heq|Hin]; inversion Hnd as [|? ? Hnotin Hnd']; subst.
  - inversion Heq; subst. rewrite String.eqb_refl. reflexivity.
  - destruct (String.eqb_spec k k0) as [->|Hne]; [|auto].
    exfalso. apply Hnotin. change k0 with (fst (k0, v)).
    apply in_map. exact Hin.
Qed.

Lemma in_values o v : In v (values o) -> exists k, In (k, v) o.
Proof.
  unfold values. intros H. apply in_map_iff in H.
  destruct H as [[k v'] [Hv Hin]]. simpl in Hv. subst. eauto.
Qed.

Lemma length_values o : List.length (values o) = List.length (keys o).
Proof. unfold values, keys. rewrite !length_map. reflexivity. Qed.
End ObjectFacts.

(** ** The accumulation pass *)

Lemma add_add c a b : Client.add (Client.add c a) b = Client.add c (a + b).
Proof. unfold Client.add. simpl. f_equal. lia. Qed.

Lemma add_zero c : Client.add c 0 = c.
Proof. destruct c. unfold Client.add. simpl. f_equal. lia. Qed.

(** The callback never throws: the entry it reads has just been stored. *)
Lemma reducer_step acc s : reducer acc s = inr (step acc s).
Proof.
  unfold reducer, step, member, amount.
  destruct (get (identifier s) acc) as [c|] eqn:Hget.
  - rewrite Hget. reflexivity.
  - rewrite get_set_same. simpl. rewrite set_set. reflexivity.
Qed.

Lemma reduce_fold cs acc :
  reduce reducer cs acc = inr (fold_left step cs acc).
Proof.
  revert acc. induction cs as [|s cs IH]; intros acc; simpl.
  - reflexivity.
  - rewrite reducer_step. simpl. apply IH.
Qed.

Lemma clientTotals_fold cs : clientTotals cs = inr (fold_left step cs []).
Proof. apply reduce_fold. Qed.

Lemma get_step acc s k :
  get k (step acc s) =
  if String.eqb k (identifier s)
  then Some (Client.add
               (match get (identifier s) acc with
                | Some c => c
                | None => fresh s
                end) (amount s))
  else get k acc.
Proof. unfold step. apply get_set. Qed.

(** What is stored under a key after the pass: the entry that was there,
    or the one made from the first record with that key, with the amounts
    of all the records with that key added. *)
Lemma get_fold cs : forall acc k,
  get k (fold_left step cs acc) =
  match get k acc with
  | Some c => Some (Client.add c (total_of k cs))
  | None =>
      option_map (fun s => Client.add (fresh s) (total_of k cs))
        (first_seen k cs)
  end.
Proof.
  unfold total_of, sharing, first_seen.
  induction cs as [|s cs IH]; intros acc k; simpl.
  - destruct (get k acc); [rewrite add_zero|]; reflexivity.
  - rewrite IH, get_step. rewrite (String.eqb_sym k (identifier s)).
    destruct (String.eqb_spec (identifier s) k) as [<-|Hne]; simpl.
    + rewrite add_add.
      destruct (get (identifier s) acc); reflexivity.
    + reflexivity.
Qed.

Lemma in_keys_step acc s k :
  In k (keys (step acc s)) <-> k = identifier s \/ In k (keys acc).
Proof. unfold step. apply in_keys_set. Qed.

Lemma in_keys_fold cs : forall acc k,
  In k (keys (fold_left step cs acc)) <->
  In k (keys acc) \/ In k (map identifier cs).
Proof.
  induction cs as [|s cs IH]; intros acc k; simpl.
  - intuition.
  - rewrite IH, in_keys_step. intuition.
Qed.

Lemma NoDup_keys_fold cs : forall acc,
  NoDup (keys acc) -> NoDup (keys (fold_left step cs acc)).
Proof.
  induction cs as [|s cs IH]; intros acc Hnd; simpl.
  - exact Hnd.
  - apply IH. unfold step. apply NoDup_keys_set. exact Hnd.
Qed.

Lemma NoDup_keys_totals cs : NoDup (keys (fold_left step cs [])).
Proof. apply NoDup_keys_fold. constructor. Qed.

(** One entry per distinct identifier. *)
Lemma length_keys_totals cs :
  List.length (keys (fold_left step cs [])) =
  List.length (nodup string_dec (map identifier cs)).
Proof.
  apply Permutation_length, NoDup_Permutation.
  - apply NoDup_keys_totals.
  - apply NoDup_nodup.
  - intros k. rewrite in_keys_fold, nodup_In. simpl. intuition.
Qed.

Lemma first_seen_split k cs s :
  first_seen k cs = Some s ->
  identifier s = k /\
  exists l1 l2, cs = l1 ++ s :: l2 /\
    forall x, In x l1 -> identifier x <> k.
Proof.
  unfold first_seen. induction cs as [|x cs IH]; simpl; [discriminate|].
  destruct (String.eqb_spec (identifier x) k) as [Hk|Hne]; intros H.
  - inversion H; subst x. split; [exact Hk|].
    exists [], cs. split; [reflexivity|intros ? []].
  - destruct (IH H) as [Hk [l1 [l2 [-> Hl1]]]]. split; [exact Hk|].
    exists (x :: l1), l2. split; [reflexivity|].
    intros y [<-|Hy]; auto.
Qed.

Lemma first_seen_app k l1 s l2 :
  identifier s = k -> (forall x, In x l1 -> identifier x <> k) ->
  first_seen k (l1 ++ s :: l2) = Some s.
Proof.
  unfold first_seen. intros Hk. induction l1 as [|x l1 IH]; simpl; intros H.
  - destruct (String.eqb_spec (identifier s) k); [reflexivity|contradiction].
  - destruct (String.eqb_spec (identifier x) k) as [Hx|_].
    + exfalso. apply (H x); auto.
    + apply IH. intros y Hy. apply H. auto.
Qed.

Lemma first_seen_some k cs :
  In k (map identifier cs) -> exists s, first_seen k cs = Some s.
Proof.
  unfold first_seen. induction cs as [|x cs IH]; simpl; [intros []|].
  destruct (String.eqb_spec (identifier x) k) as [Hx|Hne]; [eauto|].
  intros [H|H]; [contradiction|auto].
Qed.

(** Every entry of the grouped set is the one made from the first record
    with its key, holding the sum of the amounts of the records with that
    key. *)
Lemma entry_of_totals cs k c :
  In (k, c) (fold_left step cs []) ->
  exists s, first_seen k cs = Some s
    /\ c = Client.add (fresh s) (total_of k cs).
Proof.
  intros Hin. apply In_get in Hin; [|apply NoDup_keys_totals].
  rewrite get_fold in Hin. simpl in Hin.
  destruct (first_seen k cs) as [s|]; [|discriminate].
  exists s. split; [reflexivity|]. simpl in Hin. congruence.
Qed.

Lemma entry_for_record cs s :
  In s cs ->
  exists s0, first_seen (identifier s) cs = Some s0
    /\ get (identifier s) (fold_left step cs []) =
       Some (Client.add (fresh s0) (total_of (identifier s) cs)).
Proof.
  intros Hin.
  destruct (first_seen_some (identifier s) cs) as [s0 Hs0].
  { apply in_map. exact Hin. }
  exists s0. split; [exact Hs0|].
  rewrite get_fold. simpl. rewrite Hs0. reflexivity.
Qed.

(** ** Sorting and truncation *)

Section SortFacts.
Context {A : Type} (cmp : A -> A -> Z).

Lemma insert_perm x l : Permutation (insert cmp x l) (x :: l).
Proof.
  induction l as [|y l IH]; simpl.
  - apply Permutation_refl.
  - destruct (0 <? cmp x y).
    + eapply perm_trans; [apply perm_skip, IH|apply perm_swap].
    + apply Permutation_refl.
Qed.

Lemma sort_perm l : Permutation (sort cmp l) l.
Proof.
  induction l as [|x l IH]; simpl.
  - constructor.
  - eapply perm_trans; [apply insert_perm|apply perm_skip, IH].
Qed.

Lemma length_sort l : List.length (sort cmp l) = List.length l.
Proof. apply Permutation_length, sort_perm. Qed.
End SortFacts.

Lemma slice_0 {A : Type} n (l : list A) : slice 0 n l = firstn n l.
Proof. unfold slice. rewrite Nat.sub_0_r. reflexivity. Qed.





(** The leaderboard is the first ten of the sorted grouped set. *)
Lemma rankedClients_eq cs :
  rankedClients cs =
  inr (firstn 10 (sort byTotalDesc (values (fold_left step cs [])))).
Proof.
  unfold rankedClients. rewrite clientTotals_fold. simpl.
  rewrite slice_0. reflexivity.
Qed.

(** ** Strings and the joined key *)

Lemma toLowerCase_app (a b : string) :
  toLowerCase (a ++ b)%string = (toLowerCase a ++ toLowerCase b)%string.
Proof. induction a as [|c a IH]; simpl; [|rewrite IH]; reflexivity. Qed.

Lemma lower_char_sep c : Ascii.eqb (lower_char c) "|" = Ascii.eqb c "|".
Proof. destruct c as [[] [] [] [] [] [] [] []]; reflexivity. Qed.

Lemma has_sep_lower s : has_sep (toLowerCase s) = has_sep s.
Proof.
  induction s as [|c s IH]; simpl; [reflexivity|].
  rewrite lower_char_sep, IH. reflexivity.
Qed.

(** The key, field by field. *)
Lemma identifier_fields s :
  identifier s =
  (toLowerCase (template (Sale.firstName s)) ++ "|"
   ++ toLowerCase (template (Sale.lastName s)) ++ "|"
   ++ toLowerCase (or_empty (Sale.instagram s)))%string.
Proof.
  unfold identifier. rewrite !toLowerCase_app. reflexivity.
Qed.

(** A string without separator is recovered from what it prefixes. *)
Lemma sep_split a : forall a' r r',
  has_sep a = false -> has_sep a' = false ->
  (a ++ String "|" r)%string = (a' ++ String "|" r')%string ->
  a = a' /\ r = r'.
Proof.
  induction a as [|c a IH]; intros [|c' a'] r r' Ha Ha' Heq;
    simpl in *.
  - inversion Heq. auto.
  - inversion Heq; subst c'. rewrite Ascii.eqb_refl in Ha'. discriminate.
  - inversion Heq; subst c. rewrite Ascii.eqb_refl in Ha. discriminate.
  - inversion Heq; subst c'.
    apply orb_false_iff in Ha, Ha'.
    destruct (IH a' r r') as [-> ->]; tauto.
Qed.

(** ** Entries of the grouped set *)

Lemma get_totals_id cs k c :
  get k (fold_left step cs []) = Some c -> Client.id c = k.
Proof.
  rewrite get_fold. simpl.
  destruct (first_seen k cs) as [s|] eqn:Hs; [|discriminate].
  simpl. intros H. inversion H; subst c. simpl.
  apply first_seen_split in Hs. tauto.
Qed.

Lemma entries_for_absent (o : object Client.t) k :
  ~ In k (keys o) -> entries_for k o = [].
Proof.
  unfold entries_for, keys.
  induction o as [|[k0 c0] o IH]; simpl; intros Hn; [reflexivity|].
  destruct (String.eqb_spec k0 k) as [->|_]; [tauto|].
  apply IH. tauto.
Qed.

Lemma entries_for_unique (o : object Client.t) k c :
  NoDup (keys o) -> get k o = Some c -> entries_for k o = [(k, c)].
Proof.
  unfold keys. induction o as [|[k0 c0] o IH]; simpl; [discriminate|].
  intros Hnd Hget. inversion Hnd as [|? ? Hnotin Hnd']; subst.
  rewrite (String.eqb_sym k k0) in Hget.
  destruct (String.eqb_spec k0 k) as [->|Hne].
  - inversion Hget; subst c0. unfold entries_for. simpl.
    f_equal. apply entries_for_absent. exact Hnotin.
  - unfold entries_for in *. simpl. auto.
Qed.

Lemma sum_app l l' : Spec.sum (l ++ l') = Spec.sum l + Spec.sum l'.
Proof. unfold Spec.sum. induction l; simpl; lia. Qed.

Lemma total_of_app k l l' :
  total_of k (l ++ l') = total_of k l + total_of k l'.
Proof.
  unfold total_of, sharing. rewrite filter_app, map_app. apply sum_app.
Qed.

Lemma total_of_cons k s l :
  total_of k (s :: l) =
  (if String.eqb (identifier s) k then amount s else 0) + total_of k l.
Proof.
  unfold total_of, sharing. simpl.
  destruct (String.eqb (identifier s) k); reflexivity.
Qed.

Lemma total_of_own s l :
  total_of (identifier s) (s :: l) = amount s + total_of (identifier s) l.
Proof. rewrite total_of_cons, String.eqb_refl. reflexivity. Qed.

Lemma lower_name a b :
  option_map toLowerCase a = option_map toLowerCase b ->
  toLowerCase (template a) = toLowerCase (template b).
Proof.
  destruct a, b; simpl; intros H; try discriminate; [|reflexivity].
  inversion H. reflexivity.
Qed.

Lemma same_name_lower a b :
  same_name a b -> toLowerCase (template a) = toLowerCase (template b).
Proof.
  destruct a, b; simpl; intros H; try contradiction; [exact H|reflexivity].
Qed.

(** ** The properties of the ranking specification *)

(** *** The grouping key *)

(** C3, as written, fails on two records whose fields hold the
    separator: their identity tuples differ, their joined keys are the
    same text, and the aggregation merges them into one entry. *)
Lemma key_sound_fails :
  ~ key_sound Sample.pipe_first Sample.pipe_last
  /\ identity Sample.pipe_first <> identity Sample.pipe_last
  /\ clientTotals [Sample.pipe_first; Sample.pipe_last] =
     inr [("a|b|c|", Client.mk (Some "a|b") (Some "c") None 3 "a|b|c|")].
Proof.
  assert (Hid : identity Sample.pipe_first <> identity Sample.pipe_last).
  { vm_compute. discriminate. }
  split; [|split].
  - intros [Hkey _]. apply Hid, Hkey. reflexivity.
  - exact Hid.
  - reflexivity.
Qed.

(** C3 (amended): two records of the input are aggregated into the same
    entry if and only if their lower-cased joined keys are equal. Records
    with equal case-insensitive identity tuples always have equal keys;
    records with equal keys have equal tuples when both carry both names
    and none of their fields holds the separator. *)
Theorem same_entry_iff_same_key (cs : list Sale.t) (s1 s2 : Sale.t) :
  In s1 cs -> In s2 cs ->
  (same_entry cs s1 s2 <-> identifier s1 = identifier s2)
  /\ (identity s1 = identity s2 -> identifier s1 = identifier s2)
  /\ (sep_free s1 -> sep_free s2 ->
      identifier s1 = identifier s2 -> identity s1 = identity s2).
Proof.
  intros H1 H2. split; [split|split].
  - intros [acc [c [Hrun [Hg1 Hg2]]]].
    rewrite clientTotals_fold in Hrun. inversion Hrun; subst acc.
    apply get_totals_id in Hg1, Hg2. congruence.
  - intros Hk. destruct (entry_for_record cs s1 H1) as [s0 [_ Hget]].
    exists (fold_left step cs []). eexists.
    split; [apply clientTotals_fold|].
    split; [exact Hget|]. rewrite <- Hk. exact Hget.
  - unfold identity. intros Hid. inversion Hid as [[Hf Hl Hi]].
    rewrite !identifier_fields.
    rewrite (lower_name _ _ Hf), (lower_name _ _ Hl), Hi. reflexivity.
  - intros [[f1 [Hf1 Sf1]] [[l1 [Hl1 Sl1]] Si1]].
    intros [[f2 [Hf2 Sf2]] [[l2 [Hl2 Sl2]] Si2]].
    rewrite !identifier_fields. unfold identity.
    rewrite Hf1, Hl1, Hf2, Hl2. simpl. intros Hk.
    apply sep_split in Hk; try (rewrite has_sep_lower; assumption).
    destruct Hk as [-> Hk].
    apply sep_split in Hk; try (rewrite has_sep_lower; assumption).
    destruct Hk as [-> ->]. reflexivity.
Qed.

Lemma same_entry_iff_same_key_witness :
  In Sample.ana [Sample.ana; Sample.bruno; Sample.ana_caps]
  /\ In Sample.ana_caps [Sample.ana; Sample.bruno; Sample.ana_caps]
  /\ same_entry [Sample.ana; Sample.bruno; Sample.ana_caps]
       Sample.ana Sample.ana_caps.
Proof.
  split; [simpl; auto|]. split; [simpl; auto|].
  apply (same_entry_iff_same_key
           [Sample.ana; Sample.bruno; Sample.ana_caps]
           Sample.ana Sample.ana_caps); simpl; auto.
Defined.

(** *** Materialization *)

(** C4, as written, fails on two sales of one client spelled in two
    ways: the entry shows the names of the first sale, not of the last. *)
Lemma materialized_from_last_fails :
  ~ materialized_from_last [Sample.ana; Sample.ana_caps]
  /\ clientTotals [Sample.ana; Sample.ana_caps] =
     inr [("ana|silva|",
           Client.mk (Some "Ana") (Some "Silva") None 150 "ana|silva|")].
Proof.
  split; [|reflexivity].
  intros H.
  destruct (H [Sample.ana] Sample.ana_caps [] _ _ eq_refl
              (fun x (F : In x []) => match F with end)
              eq_refl eq_refl) as [Hf _].
  discriminate Hf.
Qed.

(** C4 (amended): for every identity with a contributing record, the
    first name, last name and handle of its entry are copied from the
    first record of that identity in the input sequence, and the grouped
    set holds exactly one entry for it. *)
Theorem materialized_from_first_seen (l1 l2 : list Sale.t) (s : Sale.t) :
  (forall x, In x l1 -> identifier x <> identifier s) ->
  exists acc c,
    clientTotals (l1 ++ s :: l2) = inr acc
    /\ get (identifier s) acc = Some c
    /\ copied_from c s
    /\ entries_for (identifier s) acc = [(identifier s, c)].
Proof.
  intros Hfirst.
  pose proof (first_seen_app (identifier s) l1 s l2 eq_refl Hfirst) as Hs.
  assert (Hget : get (identifier s) (fold_left step (l1 ++ s :: l2) []) =
                 Some (Client.add (fresh s)
                         (total_of (identifier s) (l1 ++ s :: l2)))).
  { rewrite get_fold. simpl. rewrite Hs. reflexivity. }
  exists (fold_left step (l1 ++ s :: l2) []). eexists.
  split; [apply clientTotals_fold|]. split; [exact Hget|]. split.
  - repeat split.
  - apply entries_for_unique; [apply NoDup_keys_totals|exact Hget].
Qed.

Lemma materialized_from_first_seen_witness :
  (forall x, In x [Sample.bruno] ->
     identifier x <> identifier Sample.ana)
  /\ exists acc c,
       clientTotals ([Sample.bruno] ++ Sample.ana :: [Sample.ana_caps])
         = inr acc
       /\ get (identifier Sample.ana) acc = Some c
       /\ copied_from c Sample.ana
       /\ entries_for (identifier Sample.ana) acc =
          [(identifier Sample.ana, c)].
Proof.
  assert (H : forall x, In x [Sample.bruno] ->
                identifier x <> identifier Sample.ana).
  { intros x [<-|[]]. vm_compute. discriminate. }
  split; [exact H|].
  apply (materialized_from_first_seen [Sample.bruno] [Sample.ana_caps]
           Sample.ana H).
Defined.

(** *** Ordering *)



Lemma nth_error_map_from {A B : Type} (f : A -> nat -> B) l :
  forall k i,
    nth_error (map_from k f l) i =
    option_map (fun x => f x (k + i)%nat) (nth_error l i).
Proof.
  induction l as [|x l IH]; intros k [|i]; simpl; try reflexivity.
  - rewrite Nat.add_0_r. reflexivity.
  - rewrite IH. rewrite Nat.add_succ_r. reflexivity.
Qed.

Lemma length_map_from {A B : Type} (f : A -> nat -> B) l :
  forall k, List.length (map_from k f l) = List.length l.
Proof. induction l as [|x l IH]; intros k; simpl; [|rewrite IH]; auto. Qed.

(** *** Totality *)

(** C9: on every finite collection of sale records the ranking
    computation completes normally, and so does every call of the
    accumulation callback; on the empty collection the leaderboard is
    empty, and the panel shows the empty-ranking message. *)
Theorem ranking_never_throws :
  (forall cs : list Sale.t, exists out, rankedClients cs = inr out)
  /\ (forall acc s, exists acc', reducer acc s = inr acc')
  /\ rankedClients [] = inr []
  /\ RankingPanel [] = RankingVazio.
Proof.
  split; [|split; [|split]].
  - intros cs. eexists. apply rankedClients_eq.
  - intros acc s. eexists. apply reducer_step.
  - reflexivity.
  - reflexivity.
Qed.

(** ** The scenarios of the specification *)

Example scenario_two_clients :
  rankedClients [Sample.ana; Sample.ana_caps; Sample.bruno] =
  inr [Client.mk (Some "Ana") (Some "Silva") None 150 "ana|silva|";
       Client.mk (Some "Bruno") (Some "Costa") (Some "@b") 30
         "bruno|costa|@b"].
Proof. reflexivity. Qed.

Example scenario_fifteen_clients :
  match rankedClients Sample.fifteen with
  | inr out =>
      map Client.totalValor out = [15; 14; 13; 12; 11; 10; 9; 8; 7; 6]
      /\ match RankingPanel out with
         | Ranking rows =>
             map position rows = seq 1 10
             /\ map cell rows =
                [Shown "R$ 15.00"; Shown "R$ 14.00"; Shown "R$ 13.00";
                 ValorPrivado; ValorPrivado; ValorPrivado; ValorPrivado;
                 ValorPrivado; ValorPrivado; ValorPrivado]
         | RankingVazio => False
         end
  | inl _ => False
  end.
Proof. vm_compute. repeat split. Qed.

(** ** More on the grouped set and the leaderboard *)

Import Sales.

Lemma existsb_eqb_In k l : existsb (String.eqb k) l = true <-> In k l.
Proof.
  rewrite existsb_exists. split.
  - intros [x [Hin Heq]]. apply String.eqb_eq in Heq. subst. exact Hin.
  - intros Hin. exists k. split; [exact Hin|apply String.eqb_refl].
Qed.

Lemma existsb_eqb_ext k l l' :
  (forall x, In x l <-> In x l') ->
  existsb (String.eqb k) l = existsb (String.eqb k) l'.
Proof.
  intros H. apply eq_true_iff_eq. rewrite !existsb_eqb_In. apply H.
Qed.

Lemma unseen_ext cs : forall seen seen',
  (forall x, In x seen <-> In x seen') -> unseen seen cs = unseen seen' cs.
Proof.
  induction cs as [|c cs IH]; intros seen seen' H; simpl; [reflexivity|].
  rewrite (existsb_eqb_ext _ seen seen' H).
  destruct (existsb (String.eqb (identifier c)) seen').
  - apply IH, H.
  - f_equal. apply IH. intros x. simpl. rewrite H. reflexivity.
Qed.

Lemma keys_set {V : Type} (o : object V) k v :
  keys (set k v o) =
  if existsb (String.eqb k) (keys o) then keys o else keys o ++ [k].
Proof.
  unfold keys. induction o as [|[k0 v0] o IH]; simpl; [reflexivity|].
  destruct (String.eqb k k0); simpl; [reflexivity|].
  rewrite IH. destruct (existsb (String.eqb k) (map fst o)); reflexivity.
Qed.

(** The keys of the grouped set are the identifiers of the unique
    clients, in the same order. *)
Lemma keys_fold cs : forall acc,
  keys (fold_left step cs acc) =
  keys acc ++ map identifier (unseen (keys acc) cs).
Proof.
  induction cs as [|s cs IH]; intros acc; simpl.
  - rewrite app_nil_r. reflexivity.
  - rewrite IH.
    assert (Hk : keys (step acc s) =
                 if existsb (String.eqb (identifier s)) (keys acc)
                 then keys acc else keys acc ++ [identifier s]).
    { unfold step. apply keys_set. }
    rewrite Hk.
    destruct (existsb (String.eqb (identifier s)) (keys acc)) eqn:Hin.
    + reflexivity.
    + rewrite <- app_assoc. simpl. do 3 f_equal.
      apply unseen_ext. intros x. rewrite in_app_iff. simpl. tauto.
Qed.

Lemma keys_totals cs :
  keys (fold_left step cs []) = map identifier (uniqueClients cs).
Proof. rewrite keys_fold. reflexivity. Qed.

Lemma unseen_first cs : forall seen s,
  In s (unseen seen cs) <->
  ~ In (identifier s) seen /\ first_seen (identifier s) cs = Some s.
Proof.
  unfold first_seen.
  induction cs as [|c cs IH]; intros seen s; simpl.
  - split; [intros []|intros [_ H]; discriminate].
  - destruct (existsb (String.eqb (identifier c)) seen) eqn:Hseen.
    + apply existsb_eqb_In in Hseen. rewrite IH.
      destruct (String.eqb_spec (identifier c) (identifier s)) as [E|N].
      * split; [intros [H _]; rewrite <- E in H; tauto|].
        intros [H _]. rewrite <- E in H. tauto.
      * tauto.
    + assert (Hnot : ~ In (identifier c) seen).
      { rewrite <- existsb_eqb_In, Hseen. discriminate. }
      simpl. rewrite IH. simpl.
      destruct (String.eqb_spec (identifier c) (identifier s)) as [E|N].
      * split.
        -- intros [->|[H _]]; [tauto|]. exfalso. apply H. auto.
        -- intros [_ H]. left. congruence.
      * split.
        -- intros [->|[H1 H2]]; [congruence|]. tauto.
        -- intros [H1 H2]. right. split; [|exact H2].
           intros [H|H]; [contradiction|tauto].
Qed.

Lemma NoDup_unique cs : NoDup (map identifier (uniqueClients cs)).
Proof. rewrite <- keys_totals. apply NoDup_keys_totals. Qed.

Lemma unseen_fixed l : forall seen,
  NoDup (map identifier l) ->
  (forall s, In s l -> ~ In (identifier s) seen) ->
  unseen seen l = l.
Proof.
  induction l as [|c l IH]; intros seen Hnd Hseen; simpl; [reflexivity|].
  inversion Hnd as [|? ? Hnotin Hnd']; subst.
  destruct (existsb (String.eqb (identifier c)) seen) eqn:E.
  - apply existsb_eqb_In in E. exfalso. apply (Hseen c); simpl; auto.
  - f_equal. apply IH; [exact Hnd'|].
    intros s Hs [H|H].
    + apply Hnotin. rewrite H. apply in_map. exact Hs.
    + apply (Hseen s); simpl; auto.
Qed.

(** X1: [uniqueClients] keeps, for each identifier, exactly the first
    record that has it: no two of the kept records share an identifier, a
    record is kept if and only if it is the first of its identifier, and
    filtering a second time changes nothing. *)
Theorem uniqueClients_first_of_each (cs : list Sale.t) :
  NoDup (map identifier (uniqueClients cs))
  /\ (forall s, In s (uniqueClients cs) <->
                first_seen (identifier s) cs = Some s)
  /\ uniqueClients (uniqueClients cs) = uniqueClients cs.
Proof.
  split; [apply NoDup_unique|]. split.
  - intros s. unfold uniqueClients. rewrite unseen_first. simpl. tauto.
  - apply unseen_fixed; [apply NoDup_unique|intros s _ []].
Qed.

Lemma values_by_keys {V : Type} (o : object V) (f : string -> V) :
  NoDup (keys o) ->
  (forall k, In k (keys o) -> get k o = Some (f k)) ->
  values o = map f (keys o).
Proof.
  unfold keys, values.
  induction o as [|[k0 v0] o IH]; simpl; intros Hnd Hget; [reflexivity|].
  inversion Hnd as [|? ? Hnotin Hnd']; subst. f_equal.
  - specialize (Hget k0 (or_introl eq_refl)).
    rewrite String.eqb_refl in Hget. congruence.
  - apply IH; [exact Hnd'|]. intros k Hk.
    specialize (Hget k (or_intror Hk)).
    destruct (String.eqb_spec k k0) as [E|_]; [|exact Hget].
    subst k. contradiction.
Qed.

Lemma values_totals cs :
  values (fold_left step cs []) = map (entry_of cs) (uniqueClients cs).
Proof.
  set (f := fun k =>
    Client.add
      (match first_seen k cs with
       | Some s => fresh s
       | None => Client.mk None None None 0 k
       end) (total_of k cs)).
  rewrite (values_by_keys _ f).
  - rewrite keys_totals, map_map. apply map_ext_in.
    intros s Hs. unfold f, entry_of.
    apply (proj1 (unseen_first cs [] s)) in Hs. destruct Hs as [_ Hs].
    rewrite Hs. reflexivity.
  - apply NoDup_keys_totals.
  - intros k Hk. rewrite get_fold. simpl. unfold f.
    apply in_keys_fold in Hk. destruct Hk as [[]|Hk].
    destruct (first_seen_some k cs Hk) as [s ->]. reflexivity.
Qed.

(** *** Sorting by a numeric key, largest first *)

Section SortByKey.
Context {A : Type} (key : A -> Z).

Let cmp : A -> A -> Z := fun a b => key b - key a.
Let ge : A -> A -> Prop := fun a b => key b <= key a.

Lemma insert_key_sorted x l :
  StronglySorted ge l -> StronglySorted ge (insert cmp x l).
Proof.
  unfold cmp, ge. induction l as [|y l IH]; simpl; intros Hs.
  - repeat constructor.
  - inversion Hs as [|? ? Hs' Hall]; subst.
    destruct (Z.ltb_spec 0 (key y - key x)).
    + constructor; [apply IH, Hs'|].
      apply Forall_forall. intros z Hz.
      apply (Permutation_in _ (insert_perm _ x l)) in Hz.
      destruct Hz as [<-|Hz]; [lia|].
      rewrite Forall_forall in Hall. apply Hall, Hz.
    + constructor; [exact Hs|]. constructor; [lia|].
      rewrite Forall_forall in Hall |- *. intros z Hz.
      specialize (Hall z Hz). simpl in Hall. lia.
Qed.

Lemma sort_key_sorted l : StronglySorted ge (sort cmp l).
Proof.
  induction l as [|x l IH]; simpl.
  - constructor.
  - apply insert_key_sorted, IH.
Qed.

(** The sort is stable: elements with the same key keep their order. *)
Lemma insert_key_stable t x l :
  filter (fun a => key a =? t) (insert cmp x l) =
  filter (fun a => key a =? t) (x :: l).
Proof.
  unfold cmp. induction l as [|y l IH]; [reflexivity|].
  simpl insert. destruct (Z.ltb_spec 0 (key y - key x)); [|reflexivity].
  simpl filter in *. rewrite IH.
  destruct (Z.eqb_spec (key x) t), (Z.eqb_spec (key y) t);
    try reflexivity. lia.
Qed.

Lemma sort_key_stable t l :
  filter (fun a => key a =? t) (sort cmp l) =
  filter (fun a => key a =? t) l.
Proof.
  induction l as [|x l IH]; [reflexivity|].
  simpl sort. rewrite insert_key_stable. simpl. rewrite IH. reflexivity.
Qed.

End SortByKey.




(** ** The sale form *)

Import Str.

Lemma blank_allWhite s : blank s = allWhite s.
Proof. induction s as [|c s IH]; simpl; [|rewrite IH]; reflexivity. Qed.

Lemma isEmpty_true s : isEmpty s = true <-> s = "".
Proof. unfold isEmpty. apply String.eqb_eq. Qed.

Lemma isEmpty_false s : isEmpty s = false <-> s <> "".
Proof. unfold isEmpty. apply String.eqb_neq. Qed.

Lemma trimStart_empty s : trimStart s = "" <-> allWhite s = true.
Proof.
  induction s as [|c s IH]; simpl; [tauto|].
  destruct (isWhiteSpace c); simpl; [exact IH|].
  split; discriminate.
Qed.

Lemma trimEnd_empty s : trimEnd s = "" <-> allWhite s = true.
Proof.
  destruct s as [|c s]; simpl; [tauto|].
  destruct (isWhiteSpace c && allWhite s); split; congruence.
Qed.

Lemma allWhite_trimStart s : allWhite (trimStart s) = allWhite s.
Proof.
  induction s as [|c s IH]; simpl; [reflexivity|].
  destruct (isWhiteSpace c) eqn:E; simpl; [exact IH|].
  rewrite E. reflexivity.
Qed.

Lemma allWhite_trimEnd s : allWhite (trimEnd s) = allWhite s.
Proof.
  induction s as [|c s IH]; simpl; [reflexivity|].
  destruct (isWhiteSpace c && allWhite s) eqn:E; simpl; [reflexivity|].
  rewrite IH. exact E.
Qed.

Lemma trim_empty s : trim s = "" <-> allWhite s = true.
Proof.
  unfold trim. rewrite trimEnd_empty, allWhite_trimStart. tauto.
Qed.

Lemma trimEnd_idem s : trimEnd (trimEnd s) = trimEnd s.
Proof.
  induction s as [|c s IH]; simpl; [reflexivity|].
  destruct (isWhiteSpace c && allWhite s) eqn:E; simpl; [reflexivity|].
  rewrite allWhite_trimEnd, E, IH. reflexivity.
Qed.

(** What [trimStart] leaves starts with a character that is not white. *)
Lemma trimStart_head s :
  trimStart s = "" \/
  exists c r, trimStart s = String c r /\ isWhiteSpace c = false.
Proof.
  induction s as [|c s IH]; simpl; [auto|].
  destruct (isWhiteSpace c) eqn:E; [exact IH|]. right. eauto.
Qed.

Lemma trimEnd_head c r :
  isWhiteSpace c = false -> trimEnd (String c r) = String c (trimEnd r).
Proof. intros E. simpl. rewrite E. reflexivity. Qed.

(** What [trim] returns is either empty or a string that starts with a
    character that is not white and that [trim] leaves as it is. *)
Lemma trim_shape s :
  trim s = "" \/
  exists c r, trim s = String c r /\ isWhiteSpace c = false
    /\ trimEnd (String c r) = String c r.
Proof.
  unfold trim. destruct (trimStart_head s) as [->|[c [r [-> E]]]];
    [auto|].
  right. exists c, (trimEnd r). rewrite trimEnd_head by exact E.
  split; [reflexivity|]. split; [exact E|].
  rewrite trimEnd_head by exact E. rewrite trimEnd_idem. reflexivity.
Qed.

Lemma trim_idem s : trim (trim s) = trim s.
Proof.
  destruct (trim_shape s) as [->|[c [r [-> [E H]]]]]; [reflexivity|].
  unfold trim. simpl trimStart. rewrite E. exact H.
Qed.

Lemma trim_fixed c r :
  isWhiteSpace c = false -> trimEnd (String c r) = String c r ->
  trim (String c r) = String c r.
Proof. intros E H. unfold trim. simpl trimStart. rewrite E. exact H. Qed.

Lemma trim_at t :
  trim t = t -> trim (String "@" t) = String "@" t.
Proof.
  intros Ht. apply trim_fixed; [reflexivity|].
  rewrite trimEnd_head by reflexivity. f_equal.
  destruct (trim_shape t) as [E|[c [r [E [_ H]]]]];
    rewrite Ht in E; subst t; [reflexivity|exact H].
Qed.

Lemma prefix_nil s : String.prefix "" s = true.
Proof. destruct s; reflexivity. Qed.

Lemma prefix_cons a p b s :
  String.prefix (String a p) (String b s) =
  if Ascii.eqb a b then String.prefix p s else false.
Proof.
  change (String.prefix (String a p) (String b s))
    with (match Ascii.ascii_dec a b with
          | left _ => String.prefix p s
          | right _ => false
          end).
  destruct (Ascii.ascii_dec a b) as [E|N], (Ascii.eqb_spec a b);
    congruence.
Qed.

Lemma startsWith_at s :
  startsWith s "@" = true <-> exists r, s = String "@" r.
Proof.
  unfold startsWith. destruct s as [|c r].
  - split; [discriminate|intros [r H]; discriminate].
  - rewrite prefix_cons, prefix_nil.
    destruct (Ascii.eqb_spec "@" c) as [<-|N].
    + split; eauto.
    + split; [discriminate|]. intros [r' H]. congruence.
Qed.

(** The stored handle: empty for a blank input, else the trimmed input
    with one ["@"] in front unless it has one. *)
Lemma finalInstagram_cases i :
  finalInstagram i =
  match trim i with
  | EmptyString => EmptyString
  | String c r => if Ascii.eqb c "@" then String c r
                  else String "@" (String c r)
  end.
Proof.
  unfold finalInstagram. destruct (trim i) as [|c r] eqn:E.
  - reflexivity.
  - change (isEmpty (String c r)) with false. simpl negb at 1.
    rewrite andb_true_l.
    destruct (Ascii.eqb_spec c "@") as [->|N].
    + assert (H : startsWith (String "@" r) "@" = true).
      { apply startsWith_at. eauto. }
      rewrite H. reflexivity.
    + destruct (startsWith (String c r) "@") eqn:H; [|reflexivity].
      apply startsWith_at in H. destruct H as [r' H]. congruence.
Qed.

(** X7: the handle that [handleAddClient] stores is empty exactly for a
    blank input and otherwise starts with ["@"]; it has no white space
    around it, and normalising it again leaves it as it is. *)
Theorem stored_handle_normal (i : string) :
  (finalInstagram i = "" <-> allWhite i = true)
  /\ (finalInstagram i = "" \/ startsWith (finalInstagram i) "@" = true)
  /\ trim (finalInstagram i) = finalInstagram i
  /\ finalInstagram (finalInstagram i) = finalInstagram i.
Proof.
  assert (Htrim : trim (finalInstagram i) = finalInstagram i).
  { rewrite finalInstagram_cases.
    pose proof (trim_idem i) as Hid.
    destruct (trim i) as [|c r] eqn:E; [reflexivity|].
    destruct (Ascii.eqb c "@"); [exact Hid|].
    apply trim_at. exact Hid. }
  split; [|split; [|split]].
  - rewrite <- trim_empty, finalInstagram_cases.
    destruct (trim i) as [|c r]; [tauto|].
    destruct (Ascii.eqb c "@"); split; discriminate.
  - rewrite finalInstagram_cases.
    destruct (trim i) as [|c r]; [auto|]. right.
    apply startsWith_at.
    destruct (Ascii.eqb_spec c "@") as [->|_]; eauto.
  - exact Htrim.
  - rewrite (finalInstagram_cases (finalInstagram i)), Htrim.
    rewrite finalInstagram_cases.
    destruct (trim i) as [|c r]; [reflexivity|].
    destruct (Ascii.eqb c "@") eqn:E; [rewrite E|]; reflexivity.
Qed.

(** X8: the Instagram link of a row whose handle was stored by the sale
    form points to the trimmed input without its leading ["@"]; a row
    with a blank input has no link. *)
Theorem instagram_link_of_stored_handle (client : Client.t) (i : string) :
  Client.instagram client = Some (finalInstagram i) ->
  Links.instagramHref client =
  match trim i with
  | EmptyString => None
  | String c r =>
      Some ("https://instagram.com/"
            ++ (if Ascii.eqb c "@" then r else String c r))%string
  end.
Proof.
  intros H. unfold Links.instagramHref. rewrite H, finalInstagram_cases.
  destruct (trim i) as [|c r]; [reflexivity|].
  destruct (Ascii.eqb_spec c "@") as [->|N]; reflexivity.
Qed.

Lemma instagram_link_of_stored_handle_witness :
  Client.instagram
    (Client.mk (Some "Bruno") (Some "Costa")
       (Some (finalInstagram " bruno.c ")) 30 "bruno|costa|@bruno.c")
  = Some (finalInstagram " bruno.c ")
  /\ Links.instagramHref
       (Client.mk (Some "Bruno") (Some "Costa")
          (Some (finalInstagram " bruno.c ")) 30 "bruno|costa|@bruno.c")
     = Some "https://instagram.com/bruno.c"%string.
Proof.
  split; [reflexivity|].
  apply (instagram_link_of_stored_handle
           (Client.mk (Some "Bruno") (Some "Costa")
              (Some (finalInstagram " bruno.c ")) 30
              "bruno|costa|@bruno.c") " bruno.c " eq_refl).
Defined.

Lemma finalInstagram_trim i : trim (finalInstagram i) = finalInstagram i.
Proof.
  rewrite finalInstagram_cases. pose proof (trim_idem i) as Hid.
  destruct (trim i) as [|c r]; [reflexivity|].
  destruct (Ascii.eqb c "@"); [exact Hid|]. apply trim_at. exact Hid.
Qed.

Lemma finalInstagram_idem i :
  finalInstagram (finalInstagram i) = finalInstagram i.
Proof.
  rewrite (finalInstagram_cases (finalInstagram i)), finalInstagram_trim.
  rewrite finalInstagram_cases.
  destruct (trim i) as [|c r]; [reflexivity|].
  destruct (Ascii.eqb c "@") eqn:E; [rewrite E|]; reflexivity.
Qed.

Lemma falsy_true v : falsy v = true <-> v = None \/ v = Some "".
Proof.
  destruct v as [s|]; simpl.
  - rewrite isEmpty_true. split; [intros ->; auto|].
    intros [H|H]; congruence.
  - split; auto.
Qed.

(** What [handleAddClient] does with a form that passes its guard. *)
Lemma handleAddClient_some parseFloat form f l :
  Form.firstName form = Some f -> Form.lastName form = Some l ->
  f <> "" -> l <> "" -> Form.valor form <> "" ->
  handleAddClient parseFloat true form =
  Some (Sale.mk (Some (trim f)) (Some (trim l))
          (Some (finalInstagram (Form.instagram form)))
          (Some (parseFloat (Form.valor form)))).
Proof.
  intros Hf Hl Nf Nl Nv. unfold handleAddClient. rewrite Hf, Hl.
  apply isEmpty_false in Nf, Nl, Nv. rewrite Nf, Nl, Nv. reflexivity.
Qed.

Lemma handleAddClient_inv parseFloat db form d :
  handleAddClient parseFloat db form = Some d ->
  exists f l,
    Form.firstName form = Some f /\ Form.lastName form = Some l
    /\ f <> "" /\ l <> "" /\ Form.valor form <> "" /\ db = true
    /\ d = Sale.mk (Some (trim f)) (Some (trim l))
             (Some (finalInstagram (Form.instagram form)))
             (Some (parseFloat (Form.valor form))).
Proof.
  unfold handleAddClient.
  destruct (Form.firstName form) as [f|]; [|discriminate].
  destruct (Form.lastName form) as [l|]; [|discriminate].
  destruct (isEmpty f) eqn:Ef; [discriminate|].
  destruct (isEmpty l) eqn:El; [discriminate|].
  destruct (isEmpty (Form.valor form)) eqn:Ev; [discriminate|].
  destruct db; [|discriminate]. simpl. intros H. inversion H.
  apply isEmpty_false in Ef, El, Ev. exists f, l. auto 10.
Qed.

(** X9: [handleAddClient] writes nothing exactly when a name or the
    amount text is empty or missing or the database is not set; what it
    writes has both names trimmed and a handle that is trimmed and either
    empty or starting with ["@"]. *)
Theorem handleAddClient_guard_and_shape
    (parseFloat : string -> number) (db : bool) (form : Form.t) :
  (handleAddClient parseFloat db form = None <->
   falsy (Form.firstName form) = true \/ falsy (Form.lastName form) = true
   \/ Form.valor form = "" \/ db = false)
  /\ forall d, handleAddClient parseFloat db form = Some d ->
       exists f l h,
         Sale.firstName d = Some f /\ Sale.lastName d = Some l
         /\ Sale.instagram d = Some h
         /\ trim f = f /\ trim l = l /\ trim h = h
         /\ (h = "" \/ startsWith h "@" = true)
         /\ Sale.valor d = Some (parseFloat (Form.valor form)).
Proof.
  split.
  - unfold handleAddClient. rewrite !falsy_true.
    destruct (Form.firstName form) as [f|]; [|tauto].
    destruct (Form.lastName form) as [l|]; [|tauto].
    destruct (isEmpty f) eqn:Ef.
    { apply isEmpty_true in Ef. subst. simpl. tauto. }
    destruct (isEmpty l) eqn:El.
    { apply isEmpty_true in El. subst. simpl. tauto. }
    destruct (isEmpty (Form.valor form)) eqn:Ev.
    { apply isEmpty_true in Ev. simpl. tauto. }
    apply isEmpty_false in Ef, El, Ev.
    destruct db; simpl; split; try discriminate; try tauto.
    intros [[H|H]|[[H|H]|[H|H]]]; congruence.
  - intros d Hd. apply handleAddClient_inv in Hd.
    destruct Hd as [f [l [_ [_ [_ [_ [_ [_ ->]]]]]]]].
    exists (trim f), (trim l), (finalInstagram (Form.instagram form)).
    simpl. repeat split; try apply trim_idem.
    + apply finalInstagram_trim.
    + rewrite finalInstagram_cases.
      destruct (trim (Form.instagram form)) as [|c r]; [auto|]. right.
      apply startsWith_at.
      destruct (Ascii.eqb_spec c "@") as [->|_]; eauto.
Qed.

(** X10: the guard of [handleAddClient] lets a first name of white space
    only through: the record is written with an empty first name, which
    the data model calls malformed, and the ranking lists it as a client
    of its own. *)
Theorem blank_first_name_is_stored
    (parseFloat : string -> number) (form : Form.t) (f l : string) :
  Form.firstName form = Some f -> f <> "" -> allWhite f = true ->
  Form.lastName form = Some l -> l <> "" -> Form.valor form <> "" ->
  exists d c,
    handleAddClient parseFloat true form = Some d
    /\ Sale.firstName d = Some ""
    /\ valid d = false
    /\ rankedClients [d] = inr [c]
    /\ Client.firstName c = Some ""
    /\ Client.totalValor c = amount d.
Proof.
  intros Hf Nf Wf Hl Nl Nv.
  set (d := Sale.mk (Some "") (Some (trim l))
              (Some (finalInstagram (Form.instagram form)))
              (Some (parseFloat (Form.valor form)))).
  exists d, (Client.add (fresh d) (amount d)).
  rewrite (handleAddClient_some _ _ f l) by assumption.
  apply trim_empty in Wf. rewrite Wf.
  split; [reflexivity|]. split; [reflexivity|]. split; [reflexivity|].
  split; [|split]; [|reflexivity|].
  - rewrite rankedClients_eq. reflexivity.
  - simpl. lia.
Qed.

Lemma blank_first_name_is_stored_witness :
  exists d,
    handleAddClient (fun _ => Num 5) true
      (Form.mk (Some "  ") (Some "Silva") "" "5") = Some d
    /\ valid d = false.
Proof.
  destruct (blank_first_name_is_stored (fun _ => Num 5)
              (Form.mk (Some "  ") (Some "Silva") "" "5") "  " "Silva"
              eq_refl ltac:(discriminate) eq_refl
              eq_refl ltac:(discriminate) ltac:(discriminate))
    as [d [c [H1 [_ [H3 _]]]]].
  exists d. split; assumption.
Defined.

(** X11: clicking the suggestion of a client that the form itself stored
    and submitting an amount writes a record with the same names and
    handle, hence with the same identifier: the new sale is added to that
    client. *)
Theorem suggestion_resubmits_same_client
    (parseFloat : string -> number) (form : Form.t) (d : Sale.t)
    (st : Sales.state) (v : string) :
  handleAddClient parseFloat true form = Some d ->
  Sale.firstName d <> Some "" -> Sale.lastName d <> Some "" -> v <> "" ->
  exists d',
    handleAddClient parseFloat true
      (Form.set (formState (handleSuggestionClick st d)) Form.Valor v)
    = Some d'
    /\ Sale.firstName d' = Sale.firstName d
    /\ Sale.lastName d' = Sale.lastName d
    /\ Sale.instagram d' = Sale.instagram d
    /\ identifier d' = identifier d.
Proof.
  intros Hd Nf Nl Nv. apply handleAddClient_inv in Hd.
  destruct Hd as [f [l [_ [_ [_ [_ [_ [_ ->]]]]]]]]. simpl in *.
  eexists. split.
  - apply (handleAddClient_some _ _ (trim f) (trim l));
      try reflexivity; try assumption; congruence.
  - simpl. rewrite !trim_idem, finalInstagram_idem.
    repeat split.
Qed.

Lemma suggestion_resubmits_same_client_witness :
  exists d',
    handleAddClient (fun _ => Num 7) true
      (Form.set
         (formState
            (handleSuggestionClick
               (mkState (Form.mk (Some "a") None "" "") [] true)
               (Sale.mk (Some "Ana") (Some "Silva") (Some "@ana")
                  (Some (Num 7)))))
         Form.Valor "7") = Some d'
    /\ identifier d' = "ana|silva|@ana"%string.
Proof.
  destruct (suggestion_resubmits_same_client (fun _ => Num 7)
              (Form.mk (Some " Ana") (Some "Silva ") "ana" "7")
              (Sale.mk (Some "Ana") (Some "Silva") (Some "@ana")
                 (Some (Num 7)))
              (mkState (Form.mk (Some "a") None "" "") [] true) "7"
              eq_refl ltac:(discriminate) ltac:(discriminate)
              ltac:(discriminate))
    as [d' [H1 [_ [_ [_ H5]]]]].
  exists d'. split; [exact H1|exact H5].
Defined.

(** ** Suggestions *)

Lemma filterE_pure {A : Type} (p : A -> completion bool) (q : A -> bool) l :
  (forall x, In x l -> p x = inr (q x)) ->
  filterE p l = inr (filter q l).
Proof.
  induction l as [|x l IH]; intros H; simpl; [reflexivity|].
  rewrite (H x) by (simpl; auto). simpl.
  rewrite IH by (intros y Hy; apply H; simpl; auto). simpl.
  destruct (q x); reflexivity.
Qed.

Lemma filterE_throws {A : Type} (p : A -> completion bool) l x e :
  In x l -> p x = inl e -> exists e', filterE p l = inl e'.
Proof.
  induction l as [|y l IH]; intros Hin Hx; [destruct Hin|].
  simpl. destruct (p y) as [e'|b] eqn:Hy; simpl; [eauto|].
  destruct Hin as [->|Hin]; [congruence|].
  destruct (IH Hin Hx) as [e' ->]. simpl. eauto.
Qed.

(** A lower-cased text is a prefix of a lower-cased name exactly when
    the name begins with the text up to letter case. *)
Lemma prefix_lower v : forall n,
  String.prefix (toLowerCase v) (toLowerCase n) = true <->
  exists p r, n = (p ++ r)%string /\ same_letters p v.
Proof.
  unfold same_letters.
  induction v as [|a v IH]; intros n; cbn [toLowerCase].
  - rewrite prefix_nil. split; [|reflexivity].
    intros _. exists "", n. auto.
  - destruct n as [|b n]; cbn [toLowerCase].
    + split; [discriminate|].
      intros [[|c p] [r [H1 H2]]]; simpl in *; discriminate.
    + rewrite prefix_cons.
      destruct (Ascii.eqb_spec (lower_char a) (lower_char b)) as [E|N].
      * rewrite IH. split.
        -- intros [p [r [-> H]]]. exists (String b p), r. simpl.
           split; [reflexivity|]. congruence.
        -- intros [[|c p] [r [H1 H2]]]; simpl in *; [discriminate|].
           inversion H1; subst. inversion H2. eauto.
      * split; [discriminate|].
        intros [[|c p] [r [H1 H2]]]; simpl in *; [discriminate|].
        inversion H1; subst. inversion H2. congruence.
Qed.

Lemma suggested_named value c f l :
  Sale.firstName c = Some f -> Sale.lastName c = Some l ->
  suggested value c =
  inr (startsWith (toLowerCase f) (toLowerCase value)
       || startsWith (toLowerCase l) (toLowerCase value)).
Proof.
  intros Hf Hl. unfold suggested. rewrite Hf, Hl. simpl.
  destruct (startsWith (toLowerCase f) (toLowerCase value)); reflexivity.
Qed.

Lemma in_unique_in cs c : In c (uniqueClients cs) -> In c cs.
Proof.
  intros H. apply (proj1 (unseen_first cs [] c)) in H.
  destruct H as [_ H]. apply first_seen_split in H.
  destruct H as [_ [l1 [l2 [-> _]]]]. apply in_elt.
Qed.

(** X12: when every record has both names, typing a text that is not
    blank into the first-name input never fails; it opens the suggestion
    box with exactly the unique clients whose first or last name begins
    with the text, letter case ignored. *)
Theorem suggestions_are_prefix_matches
    (cs : list Sale.t) (st : Sales.state) (v : string) :
  (forall c, In c cs ->
     Sale.firstName c <> None /\ Sale.lastName c <> None) ->
  allWhite v = false ->
  exists st',
    handleFormChange cs st Form.FirstName v = inr st'
    /\ showSuggestions st' = true
    /\ Form.firstName (formState st') = Some v
    /\ forall c, In c (suggestions st') <->
         In c (uniqueClients cs)
         /\ (begins v (Sale.firstName c) \/ begins v (Sale.lastName c)).
Proof.
  intros Hnamed Hv.
  set (q := fun c =>
    startsWith (toLowerCase (template (Sale.firstName c))) (toLowerCase v)
    || startsWith (toLowerCase (template (Sale.lastName c)))
         (toLowerCase v)).
  assert (Hrun : filterE (suggested v) (uniqueClients cs) =
                 inr (filter q (uniqueClients cs))).
  { apply filterE_pure. intros c Hc. apply in_unique_in in Hc.
    destruct (Hnamed c Hc) as [Hf Hl]. unfold q.
    destruct (Sale.firstName c) as [f|] eqn:Ef; [|congruence].
    destruct (Sale.lastName c) as [l|] eqn:El; [|congruence].
    apply suggested_named; assumption. }
  exists (mkState (Form.set (formState st) Form.FirstName v)
            (filter q (uniqueClients cs)) true).
  split; [|split; [reflexivity|split; [reflexivity|]]].
  - unfold handleFormChange.
    assert (E : isEmpty (trim v) = false).
    { apply isEmpty_false. rewrite trim_empty, Hv. discriminate. }
    rewrite E, Hrun. reflexivity.
  - intros c. simpl. rewrite filter_In. unfold q, startsWith.
    rewrite orb_true_iff, !prefix_lower. unfold begins.
    split; intros [Hin Hc]; (split; [exact Hin|]).
    + apply in_unique_in in Hin. destruct (Hnamed c Hin) as [Hf Hl].
      destruct (Sale.firstName c) as [f|]; [|congruence].
      destruct (Sale.lastName c) as [l|]; [|congruence]. simpl in Hc.
      destruct Hc as [[p [r [-> H]]]|[p [r [-> H]]]]; [left|right];
        eauto 6.
    + destruct Hc as [[n [p [r [-> [-> H]]]]]|[n [p [r [-> [-> H]]]]]];
        simpl; eauto.
Qed.

Lemma suggestions_are_prefix_matches_witness :
  exists st',
    handleFormChange [Sample.ana; Sample.bruno; Sample.ana_caps]
      (mkState (Form.mk (Some "") (Some "") "" "") [] false)
      Form.FirstName "SI" = inr st'
    /\ (In Sample.ana (suggestions st') <->
        In Sample.ana
          (uniqueClients [Sample.ana; Sample.bruno; Sample.ana_caps])
        /\ (begins "SI" (Sale.firstName Sample.ana)
            \/ begins "SI" (Sale.lastName Sample.ana))).
Proof.
  destruct (suggestions_are_prefix_matches
              [Sample.ana; Sample.bruno; Sample.ana_caps]
              (mkState (Form.mk (Some "") (Some "") "" "") [] false) "SI")
    as [st' [Hrun [_ [_ Hin]]]].
  - intros c [<-|[<-|[<-|[]]]]; split; discriminate.
  - reflexivity.
  - exists st'. split; [exact Hrun|apply Hin].
Defined.

(** X13: one record without first name among the unique clients breaks
    the suggestion box: typing into the first-name input then throws for
    every text that is not blank, and only for those; a blank text just
    closes the box. *)
Theorem suggestions_throw_on_unnamed
    (cs : list Sale.t) (st : Sales.state) (v : string) (c : Sale.t) :
  In c (uniqueClients cs) -> Sale.firstName c = None ->
  ((exists e, handleFormChange cs st Form.FirstName v = inl e) <->
   allWhite v = false)
  /\ (allWhite v = true ->
      handleFormChange cs st Form.FirstName v =
      inr (mkState (Form.set (formState st) Form.FirstName v)
             (suggestions st) false)).
Proof.
  intros Hin Hc. unfold handleFormChange.
  destruct (allWhite v) eqn:Hv.
  - assert (E : isEmpty (trim v) = true).
    { apply isEmpty_true, trim_empty, Hv. }
    rewrite E. split; [|reflexivity].
    split; [intros [e H]; discriminate|discriminate].
  - assert (E : isEmpty (trim v) = false).
    { apply isEmpty_false. rewrite trim_empty, Hv. discriminate. }
    rewrite E. split; [|discriminate].
    split; [reflexivity|]. intros _.
    destruct (filterE_throws (suggested v) (uniqueClients cs) c
                (TypeError "Cannot read properties of undefined") Hin)
      as [e He].
    + unfold suggested. rewrite Hc. reflexivity.
    + rewrite He. simpl. eauto.
Qed.

Lemma suggestions_throw_on_unnamed_witness :
  In Sample.unnamed (uniqueClients [Sample.ana; Sample.unnamed])
  /\ Sale.firstName Sample.unnamed = None
  /\ exists e,
       handleFormChange [Sample.ana; Sample.unnamed]
         (mkState (Form.mk (Some "") (Some "") "" "") [] false)
         Form.FirstName "b" = inl e.
Proof.
  assert (Hin : In Sample.unnamed
                  (uniqueClients [Sample.ana; Sample.unnamed])).
  { vm_compute. auto. }
  split; [exact Hin|]. split; [reflexivity|].
  apply (suggestions_throw_on_unnamed [Sample.ana; Sample.unnamed]
           (mkState (Form.mk (Some "") (Some "") "" "") [] false) "b"
           Sample.unnamed Hin eq_refl).
  reflexivity.
Defined.

(** ** WhatsApp contacts *)

Lemma allDigits_removeNonDigits s : allDigits (removeNonDigits s) = true.
Proof.
  induction s as [|c s IH]; simpl; [reflexivity|].
  destruct (isDigit c) eqn:E; simpl; [rewrite E|]; exact IH.
Qed.

Lemma removeNonDigits_fixed s :
  allDigits s = true -> removeNonDigits s = s.
Proof.
  induction s as [|c s IH]; simpl; [reflexivity|].
  intros H. apply andb_true_iff in H. destruct H as [Hc Hs].
  rewrite Hc, IH by exact Hs. reflexivity.
Qed.

(** X14: the number that [handleAddNumber] stores holds digits only, the
    digits of the input in their order, and is the input itself when that
    is all digits; the contact is stored active, so the navigation bar
    links to [https://wa.me/] followed by these digits. *)
Theorem whatsapp_number_is_digits
    (db : bool) (newNumber newLabel : string) (w : Whatsapp.t)
    (docs : list Whatsapp.t) :
  Whatsapp.handleAddNumber db newNumber newLabel = Some w ->
  In w docs ->
  Whatsapp.number w = removeNonDigits newNumber
  /\ allDigits (Whatsapp.number w) = true
  /\ (allDigits newNumber = true -> Whatsapp.number w = newNumber)
  /\ In ("https://wa.me/" ++ Whatsapp.number w)%string
       (Whatsapp.navigationLinks (Whatsapp.activeWhatsappNumbers docs)).
Proof.
  unfold Whatsapp.handleAddNumber.
  destruct (isEmpty newNumber || isEmpty newLabel || negb db);
    [discriminate|].
  intros H Hin. inversion H; subst w. simpl.
  split; [reflexivity|]. split; [apply allDigits_removeNonDigits|].
  split; [intros Hd; apply removeNonDigits_fixed, Hd|].
  unfold Whatsapp.navigationLinks, Whatsapp.activeWhatsappNumbers.
  apply in_map_iff. eexists. split; [|apply filter_In; split;
    [exact Hin|reflexivity]].
  reflexivity.
Qed.

Lemma whatsapp_number_is_digits_witness :
  exists w,
    Whatsapp.handleAddNumber true "+55 (41) 99999-8888" "Vendas" = Some w
    /\ In "https://wa.me/5541999998888"%string
         (Whatsapp.navigationLinks
            (Whatsapp.activeWhatsappNumbers
               [Whatsapp.mk "1" "x" false; w])).
Proof.
  eexists. split; [reflexivity|].
  apply (whatsapp_number_is_digits true "+55 (41) 99999-8888" "Vendas"
           _ _ eq_refl).
  simpl. auto.
Defined.

(** ** The admin gate *)

Lemma admin_step_locked a m e :
  Admin.isAdminAuthenticated a = false ->
  Admin.inputKey m <> Admin.ADMIN_KEY ->
  (forall v, e = Admin.TypeKey v -> v <> Admin.ADMIN_KEY) ->
  Admin.isAdminAuthenticated (fst (Admin.step (a, m) e)) = false
  /\ Admin.inputKey (snd (Admin.step (a, m) e)) <> Admin.ADMIN_KEY.
Proof.
  intros Ha Hm He. unfold Admin.step.
  match goal with |- context [let (_, _) := ?inner in _] =>
    destruct inner as [a' m'] eqn:Hin end.
  cbn [fst snd].
  assert (H : Admin.isAdminAuthenticated a' = false
              /\ Admin.inputKey m' <> Admin.ADMIN_KEY).
  { destruct e as [| |v| | | |].
    - inversion Hin; subst. auto.
    - inversion Hin; subst. auto.
    - pose proof (He v eq_refl) as Hv.
      destruct (Admin.onPrompt a); inversion Hin; subst; auto.
    - destruct (Admin.onPrompt a); [|inversion Hin; subst; auto].
      unfold Admin.handleConfirm in Hin.
      destruct (String.eqb_spec (Admin.inputKey m) Admin.ADMIN_KEY);
        [contradiction|].
      inversion Hin; subst. split; [exact Ha|discriminate].
    - destruct (Admin.onPrompt a); inversion Hin; subst; auto.
    - inversion Hin; subst. auto.
    - inversion Hin; subst. auto. }
  destruct H as [H1 H2]. split; [exact H1|].
  destruct (Admin.onPrompt a'); [exact H2|discriminate].
Qed.

Lemma admin_run_locked events : forall a m,
  Admin.isAdminAuthenticated a = false ->
  Admin.inputKey m <> Admin.ADMIN_KEY ->
  ~ In Admin.ADMIN_KEY (Admin.typed events) ->
  Admin.isAdminAuthenticated (fst (Admin.run (a, m) events)) = false.
Proof.
  unfold Admin.run.
  induction events as [|e events IH]; intros a m Ha Hm Hk; [exact Ha|].
  change (fold_left Admin.step (e :: events) (a, m))
    with (fold_left Admin.step events (Admin.step (a, m) e)).
  destruct (admin_step_locked a m e Ha Hm) as [Ha' Hm'].
  { intros v -> E. apply Hk. simpl. auto. }
  destruct (Admin.step (a, m) e) as [a' m'] eqn:Es. simpl in Ha', Hm'.
  apply IH; try assumption.
  intros Hin. apply Hk. destruct e; simpl; auto.
Qed.

(** X15: the admin dashboard stays closed without the key. From a
    session that is not authenticated, whatever a visitor clicks and
    types and whenever the data loads, as long as the access key itself
    is never typed the session is not authenticated and the page shown is
    never the admin dashboard. *)
Theorem admin_dashboard_needs_the_key
    (a : Admin.app) (events : list Admin.event) :
  Admin.isAdminAuthenticated a = false ->
  ~ In Admin.ADMIN_KEY (Admin.typed events) ->
  Admin.isAdminAuthenticated
    (fst (Admin.run (a, Admin.mounted) events)) = false
  /\ Admin.renderPage (fst (Admin.run (a, Admin.mounted) events))
     <> Admin.AdminDashboard.
Proof.
  intros Ha Hk.
  assert (H : Admin.isAdminAuthenticated
                (fst (Admin.run (a, Admin.mounted) events)) = false).
  { apply admin_run_locked; [exact Ha|discriminate|exact Hk]. }
  split; [exact H|].
  unfold Admin.renderPage. rewrite H.
  destruct (negb _); [discriminate|].
  destruct (Admin.isLoading _); [discriminate|].
  destruct (Admin.currentPage _); discriminate.
Qed.

Lemma admin_dashboard_needs_the_key_witness :
  Admin.renderPage
    (fst (Admin.run
            (Admin.mkApp Admin.ranking false "" false, Admin.mounted)
            [Admin.ClickAdmin; Admin.TypeKey "1234";
             Admin.ClickDesbloquear]))
  <> Admin.AdminDashboard.
Proof.
  apply (admin_dashboard_needs_the_key
           (Admin.mkApp Admin.ranking false "" false)
           [Admin.ClickAdmin; Admin.TypeKey "1234";
            Admin.ClickDesbloquear] eq_refl).
  simpl. intros [H|[]]. discriminate H.
Defined.

Lemma admin_step_stays a m e :
  Admin.isAdminAuthenticated a = true ->
  Admin.isAdminAuthenticated (fst (Admin.step (a, m) e)) = true.
Proof.
  intros Ha. unfold Admin.step.
  match goal with |- context [let (_, _) := ?inner in _] =>
    destruct inner as [a' m'] eqn:Hin end.
  cbn [fst snd].
  destruct e as [| |v| | | |];
    try (inversion Hin; subst; exact Ha);
    try (destruct (Admin.onPrompt a); inversion Hin; subst; exact Ha).
  destruct (Admin.onPrompt a); [|inversion Hin; subst; exact Ha].
  unfold Admin.handleConfirm in Hin.
  destruct (String.eqb (Admin.inputKey m) Admin.ADMIN_KEY);
    inversion Hin; subst; auto.
Qed.

(** X16: the key opens the dashboard, and nothing closes the session.
    Once the data has loaded without error, clicking Admin, typing the
    access key and clicking the unlock button shows the admin dashboard;
    and a session that is authenticated stays so through every later
    event. *)
Theorem admin_key_unlocks_for_good
    (a : Admin.app) (m : Admin.prompt) (events : list Admin.event) :
  (Admin.error a = "" -> Admin.isLoading a = false ->
   Admin.renderPage
     (fst (Admin.run (a, m)
             [Admin.ClickAdmin; Admin.TypeKey Admin.ADMIN_KEY;
              Admin.ClickDesbloquear])) = Admin.AdminDashboard)
  /\ (Admin.isAdminAuthenticated a = true ->
      Admin.isAdminAuthenticated (fst (Admin.run (a, m) events)) = true).
Proof.
  split.
  - intros He Hl. destruct a as [p auth err load]. simpl in He, Hl.
    subst err load. destruct auth, p; reflexivity.
  - revert a m. unfold Admin.run.
    induction events as [|e events IH]; intros a m Ha; [exact Ha|].
    change (fold_left Admin.step (e :: events) (a, m))
      with (fold_left Admin.step events (Admin.step (a, m) e)).
    pose proof (admin_step_stays a m e Ha) as Ha'.
    destruct (Admin.step (a, m) e) as [a' m']. apply IH. exact Ha'.
Qed.

Lemma admin_key_unlocks_for_good_witness :
  Admin.renderPage
    (fst (Admin.run
            (Admin.mkApp Admin.ranking false "" false, Admin.mounted)
            [Admin.ClickAdmin; Admin.TypeKey Admin.ADMIN_KEY;
             Admin.ClickDesbloquear])) = Admin.AdminDashboard.
Proof.
  apply (proj1 (admin_key_unlocks_for_good
                  (Admin.mkApp Admin.ranking false "" false)
                  Admin.mounted [])); reflexivity.
Defined.

(** ** The notice *)

(** X17: a dismissed notice stays closed until its [id] changes. After
    the visitor closes the modal of a notice, a later snapshot leaves it
    closed when it carries the same [id], and opens it exactly when the
    notice is active and carries another [id]. *)
Theorem dismissed_notice_stays_closed
    (a : Notice.app) (shown later : Notice.data) :
  let closed := Notice.handleCloseNotice (Notice.onSnapshot a (Some shown)) in
  Notice.showNoticeModal closed = false
  /\ Notice.noticeDismissedId closed = Some (Notice.id shown)
  /\ Notice.showNoticeModal (Notice.onSnapshot closed (Some later)) =
     (Notice.isActive later
      && negb (String.eqb (Notice.id shown) (Notice.id later)))
  /\ Notice.showNoticeModal (Notice.onSnapshot closed None) = false.
Proof.
  simpl. repeat split.
  destruct (Notice.isActive later
            && negb (String.eqb (Notice.id shown) (Notice.id later)));
    reflexivity.
Qed.

(** ** Editing a sale *)

Lemma get_delete {V : Type} (o : object V) k k' :
  get k (Edit.delete k' o) = if String.eqb k k' then None else get k o.
Proof.
  unfold Edit.delete. induction o as [|[k0 v0] o IH]; simpl.
  - destruct (String.eqb k k'); reflexivity.
  - destruct (String.eqb_spec k0 k') as [->|N]; simpl.
    + rewrite IH. destruct (String.eqb_spec k k') as [->|N'];
        [reflexivity|].
      destruct (String.eqb_spec k k'); [contradiction|reflexivity].
    + rewrite IH. destruct (String.eqb_spec k k0) as [->|N'];
        [|reflexivity].
      destruct (String.eqb_spec k0 k'); [contradiction|reflexivity].
Qed.

(** X18: the data that the edit modal saves never holds the fields [id],
    [createdAt] and [totalValor]; its [valor] is [parseFloat] of the one
    of the form, and every other field is the one of the form, present or
    missing. *)
Theorem handleSave_payload {V : Type} (parseFloat : option V -> V)
    (formData : object V) :
  get "id" (Edit.handleSave parseFloat formData) = None
  /\ get "createdAt" (Edit.handleSave parseFloat formData) = None
  /\ get "totalValor" (Edit.handleSave parseFloat formData) = None
  /\ get "valor" (Edit.handleSave parseFloat formData) =
     Some (parseFloat (get "valor" formData))
  /\ forall k, k <> "id"%string -> k <> "createdAt"%string ->
       k <> "totalValor"%string -> k <> "valor"%string ->
       get k (Edit.handleSave parseFloat formData) = get k formData.
Proof.
  unfold Edit.handleSave. rewrite !get_delete, !get_set. simpl.
  repeat split.
  intros k N1 N2 N3 N4. rewrite !get_delete, get_set.
  apply String.eqb_neq in N1, N2, N3, N4.
  rewrite N1, N2, N3, N4. reflexivity.
Qed.

Lemma handleSave_payload_witness :
  get "firstName"
    (Edit.handleSave (fun _ => 12)
       [("id", 1); ("firstName", 2); ("valor", 3); ("createdAt", 4)])
  = Some 2.
Proof.
  rewrite (proj2 (proj2 (proj2 (proj2
             (handleSave_payload (fun _ => 12)
                [("id", 1); ("firstName", 2); ("valor", 3);
                 ("createdAt", 4)])))) "firstName");
    try discriminate.
  reflexivity.
Defined.

(** ** The sales history *)

(** X19: the sales history lists the same documents as [allClients],
    newest first, two documents created at the same time keeping their
    order. *)
Theorem sortedClients_newest_first (allClients : list Sales.doc) :
  Permutation (sortedClients allClients) allClients
  /\ StronglySorted (fun a b => createdAt b <= createdAt a)
       (sortedClients allClients)
  /\ forall t,
       filter (fun d => createdAt d =? t) (sortedClients allClients) =
       filter (fun d => createdAt d =? t) allClients.
Proof.
  unfold sortedClients, byCreatedAtDesc. split; [apply sort_perm|].
  split.
  - apply (sort_key_sorted createdAt).
  - intros t. apply (sort_key_stable createdAt).
Qed.

(** ** The panel of a leaderboard *)

Lemma disclosed_from (l : list Client.t) : forall k,
  filter disclosed (map_from k renderRow l) =
  firstn (3 - k) (map_from k renderRow l).
Proof.
  induction l as [|c l IH]; intros k; cbn [map_from filter].
  - rewrite firstn_nil. reflexivity.
  - assert (Hd : disclosed (renderRow c k) = (k <? 3)%nat).
    { unfold disclosed, renderRow. cbn [cell].
      destruct (k <? 3)%nat; reflexivity. }
    rewrite Hd, IH. destruct (Nat.ltb_spec k 3) as [Hk|Hk].
    + replace (3 - k)%nat with (S (3 - S k)) by lia. reflexivity.
    + replace (3 - k)%nat with 0%nat by lia.
      replace (3 - S k)%nat with 0%nat by lia. reflexivity.
Qed.

Lemma positions_from (l : list Client.t) : forall k,
  map position (map_from k renderRow l) = seq (k + 1) (List.length l).
Proof.
  induction l as [|c l IH]; intros k; simpl; [reflexivity|].
  f_equal. rewrite IH. reflexivity.
Qed.

(** X20: what the public page shows for an input. With no record it is
    the empty-ranking message; otherwise the rows are numbered from 1,
    there are as many as distinct identifiers, ten at most, and the rows
    that show an amount are the first three, or all when there are
    fewer: never more than three amounts are shown. *)
Theorem public_page_rows (cs : list Sale.t) :
  exists out,
    rankedClients cs = inr out
    /\ match RankingPanel out with
       | RankingVazio => cs = []
       | Ranking rows =>
           cs <> []
           /\ List.length rows =
              Nat.min (List.length (nodup string_dec (map identifier cs)))
                10
           /\ map position rows = seq 1 (List.length rows)
           /\ filter disclosed rows = firstn 3 rows
           /\ List.length (filter disclosed rows) =
              Nat.min (List.length rows) 3
       end.
Proof.
  eexists. split; [apply rankedClients_eq|].
  set (out := firstn 10 (sort byTotalDesc (values (fold_left step cs [])))).
  assert (Hlen : List.length out =
                 Nat.min (List.length (nodup string_dec (map identifier cs)))
                   10).
  { unfold out.
    rewrite length_firstn, length_sort, length_values, length_keys_totals.
    apply Nat.min_comm. }
  unfold RankingPanel. destruct (Nat.eqb_spec (List.length out) 0) as [E|N].
  - rewrite E in Hlen. destruct cs as [|s cs]; [reflexivity|].
    exfalso. assert (Hin : In (identifier s)
                             (nodup string_dec (map identifier (s :: cs)))).
    { apply nodup_In. simpl. auto. }
    destruct (nodup string_dec (map identifier (s :: cs)));
      [destruct Hin|simpl in Hlen; lia].
  - unfold mapi. split; [|split; [|split; [|split]]].
    + intros ->. apply N. reflexivity.
    + rewrite length_map_from. exact Hlen.
    + rewrite positions_from, length_map_from. reflexivity.
    + apply disclosed_from.
    + rewrite disclosed_from, length_firstn, length_map_from.
      apply Nat.min_comm.
Qed.

(** ** The pass on doubles *)

Module F64Facts.
Import F64.

Lemma reducer_step_f64 acc s : reducer acc s = inr (F64.step acc s).
Proof.
  unfold reducer, F64.step, member, amount_of.
  destruct (get (identifier s) acc) as [c|] eqn:Hget.
  - rewrite Hget. reflexivity.
  - rewrite get_set_same. simpl. rewrite set_set. reflexivity.
Qed.

Lemma reduce_fold_f64 cs acc :
  reduce reducer cs acc = inr (fold_left F64.step cs acc).
Proof.
  revert acc. induction cs as [|s cs IH]; intros acc; simpl.
  - reflexivity.
  - rewrite reducer_step_f64. simpl. apply IH.
Qed.

Lemma clientTotals_fold_f64 cs :
  clientTotals cs = inr (fold_left F64.step cs []).
Proof. apply reduce_fold_f64. Qed.

Lemma rankedClients_eq_f64 cs :
  rankedClients cs =
  inr (firstn 10 (F64.sort byTotalDesc (values (fold_left F64.step cs [])))).
Proof.
  unfold rankedClients. rewrite clientTotals_fold_f64. simpl.
  rewrite slice_0. reflexivity.
Qed.

(** What is stored under a key after the pass: the entry that was there,
    or the one made from the first record with that key, with the amounts
    of the records with that key added one by one, in their order. *)
Lemma get_fold_f64 cs : forall acc k,
  get k (fold_left F64.step cs acc) =
  match get k acc with
  | Some c => Some (added c (sharing k cs))
  | None =>
      match sharing k cs with
      | [] => None
      | s :: _ => Some (added (fresh s) (sharing k cs))
      end
  end.
Proof.
  unfold sharing, added.
  induction cs as [|s cs IH]; intros acc k; simpl.
  - destruct (get k acc); reflexivity.
  - rewrite IH.
    assert (Hs : get k (F64.step acc s) =
                 if String.eqb k (identifier s)
                 then Some (Client.add
                              (match get (identifier s) acc with
                               | Some c => c
                               | None => fresh s
                               end) (amount_of s))
                 else get k acc).
    { unfold F64.step. apply get_set. }
    rewrite Hs, (String.eqb_sym k (identifier s)).
    destruct (String.eqb_spec (identifier s) k) as [<-|Hne]; simpl.
    + destruct (get (identifier s) acc); reflexivity.
    + reflexivity.
Qed.

Lemma in_keys_fold_f64 cs : forall acc k,
  In k (keys (fold_left F64.step cs acc)) <->
  In k (keys acc) \/ In k (map identifier cs).
Proof.
  induction cs as [|s cs IH]; intros acc k; simpl.
  - intuition.
  - rewrite IH.
    assert (Hs : In k (keys (F64.step acc s)) <->
                 k = identifier s \/ In k (keys acc)).
    { unfold F64.step. apply in_keys_set. }
    rewrite Hs. intuition.
Qed.

Lemma NoDup_keys_fold_f64 cs : forall acc,
  NoDup (keys acc) -> NoDup (keys (fold_left F64.step cs acc)).
Proof.
  induction cs as [|s cs IH]; intros acc Hnd; simpl.
  - exact Hnd.
  - apply IH. unfold F64.step. apply NoDup_keys_set. exact Hnd.
Qed.

Lemma NoDup_keys_totals_f64 cs : NoDup (keys (fold_left F64.step cs [])).
Proof. apply NoDup_keys_fold_f64. constructor. Qed.

Lemma added_fields_f64 l : forall c,
  Client.firstName (added c l) = Client.firstName c
  /\ Client.lastName (added c l) = Client.lastName c
  /\ Client.instagram (added c l) = Client.instagram c
  /\ Client.id (added c l) = Client.id c
  /\ Client.totalValor (added c l) =
     fold_left PrimFloat.add (map amount_of l) (Client.totalValor c).
Proof.
  unfold added. induction l as [|s l IH]; intros c; simpl; [auto 6|].
  destruct (IH (Client.add c (amount_of s))) as [H1 [H2 [H3 [H4 H5]]]].
  simpl in *. auto 6.
Qed.

Lemma sharing_in_f64 k cs s : In s (sharing k cs) -> In s cs /\ identifier s = k.
Proof.
  unfold sharing. rewrite filter_In, String.eqb_eq. tauto.
Qed.

Lemma sharing_app_f64 k l l' : sharing k (l ++ l') = sharing k l ++ sharing k l'.
Proof. apply filter_app. Qed.

Lemma sharing_own_f64 s l : sharing (identifier s) (s :: l) =
                        s :: sharing (identifier s) l.
Proof. unfold sharing. simpl. rewrite String.eqb_refl. reflexivity. Qed.

(** The entry of a record of the input. *)
Lemma entry_for_record_f64 l1 s l2 :
  exists s0 c,
    hd_error (sharing (identifier s) (l1 ++ s :: l2)) = Some s0
    /\ get (identifier s) (fold_left F64.step (l1 ++ s :: l2) []) = Some c
    /\ c = added (fresh s0) (sharing (identifier s) (l1 ++ s :: l2))
    /\ Client.id c = identifier s
    /\ Client.totalValor c = total_of (identifier s) (l1 ++ s :: l2).
Proof.
  pose proof (get_fold_f64 (l1 ++ s :: l2) [] (identifier s)) as Hget.
  change (get (identifier s) []) with (@None Client.t) in Hget.
  cbv beta iota in Hget. unfold total_of, F64.sum.
  destruct (sharing (identifier s) (l1 ++ s :: l2)) as [|s0 r] eqn:E.
  - exfalso. rewrite sharing_app_f64, sharing_own_f64 in E.
    destruct (sharing (identifier s) l1); discriminate.
  - exists s0, (added (fresh s0) (s0 :: r)).
    destruct (added_fields_f64 (s0 :: r) (fresh s0))
      as [_ [_ [_ [Hid Htot]]]].
    split; [reflexivity|]. split; [exact Hget|]. split; [reflexivity|].
    split; [|exact Htot].
    transitivity (identifier s0); [exact Hid|].
    apply (sharing_in_f64 (identifier s) (l1 ++ s :: l2)).
    rewrite E. simpl. auto.
Qed.

(** Every entry of the grouped set holds, under its key, what the
    records with that key add up to. *)
Lemma entry_of_totals_f64 cs k c :
  In (k, c) (fold_left F64.step cs []) ->
  Client.id c = k /\ sharing k cs <> []
  /\ Client.totalValor c = total_of k cs
  /\ exists s0, hd_error (sharing k cs) = Some s0
       /\ Client.firstName c = Sale.firstName s0
       /\ Client.lastName c = Sale.lastName s0
       /\ Client.instagram c = Sale.instagram s0.
Proof.
  intros Hin. apply In_get in Hin; [|apply NoDup_keys_totals_f64].
  rewrite get_fold_f64 in Hin.
  change (get k []) with (@None Client.t) in Hin. cbv beta iota in Hin.
  unfold total_of, F64.sum.
  destruct (sharing k cs) as [|s0 r] eqn:E; [discriminate|].
  inversion Hin; subst c. clear Hin.
  destruct (added_fields_f64 (s0 :: r) (fresh s0))
    as [H1 [H2 [H3 [H4 H5]]]].
  split.
  { transitivity (identifier s0); [exact H4|].
    apply (sharing_in_f64 k cs). rewrite E. simpl. auto. }
  split; [discriminate|]. split; [exact H5|].
  exists s0. auto.
Qed.

End F64Facts.
(** Two doubles that are not equal as numbers are different. *)
Ltac float_discr H :=
  match type of H with
  | ?a = ?b =>
      apply (f_equal (PrimFloat.eqb b)) in H; vm_compute in H;
      discriminate H
  end.

(** ** The properties of the ranking specification, on doubles *)

(** C1, as written, fails twice. A record with an empty first name has
    its amount in the totals, while the valid records add up to nothing;
    and the total of a client with the sales 2^53, 1 and 1, all valid, is
    2^53 and not their sum. *)
Lemma sum_of_totals_fails :
  ~ F64.sums_valid_only [F64Sample.empty_name]
  /\ F64.clientTotals
       [F64Sample.big; F64Sample.one; F64Sample.one] =
     inr [("x|y|",
           F64.Client.mk (Some "x") (Some "y") None
             (F64.ofZ 9007199254740992) "x|y|")]
  /\ F64.ofZ 9007199254740992 <> F64.ofZ (9007199254740992 + 1 + 1).
Proof.
  split; [|split].
  - intros [acc [Hrun Hsum]]. vm_compute in Hrun.
    injection Hrun as <-. vm_compute in Hsum. float_discr Hsum.
  - vm_compute. reflexivity.
  - intros H. vm_compute in H. float_discr H.
Qed.

(** C1 (amended): for every collection of sale records the aggregation
    returns a grouped set with one entry per identifier that occurs; the
    [totalValor] of an entry is what the amounts of exactly the records
    with its identifier, valid or not, a missing amount counting as
    zero, add up to when added one by one from zero in the order of the
    input, in double arithmetic; and every record has its entry. *)
Theorem aggregation_adds_in_order (cs : list F64.Sale.t) :
  exists acc,
    F64.clientTotals cs = inr acc
    /\ NoDup (keys acc)
    /\ (forall k c, In (k, c) acc ->
          F64.Client.id c = k /\ F64.sharing k cs <> []
          /\ F64.Client.totalValor c =
             fold_left PrimFloat.add
               (map F64.amount_of (F64.sharing k cs)) PrimFloat.zero)
    /\ (forall s, In s cs -> exists c, In (F64.identifier s, c) acc).
Proof.
  exists (fold_left F64.step cs []).
  split; [apply F64Facts.clientTotals_fold_f64|].
  split; [apply F64Facts.NoDup_keys_totals_f64|]. split.
  - intros k c Hin. apply F64Facts.entry_of_totals_f64 in Hin.
    destruct Hin as [H1 [H2 [H3 _]]]. auto.
  - intros s Hs. apply in_split in Hs. destruct Hs as [l1 [l2 ->]].
    destruct (F64Facts.entry_for_record_f64 l1 s l2)
      as [s0 [c [_ [Hget _]]]].
    exists c. apply get_In. exact Hget.
Qed.

Lemma aggregation_adds_in_order_witness :
  exists acc,
    F64.clientTotals [F64Sample.dime; F64Sample.bruno; F64Sample.two_dimes]
    = inr acc
    /\ forall c, In ("x|y|"%string, c) acc ->
         F64.Client.totalValor c =
         PrimFloat.add
           (PrimFloat.add PrimFloat.zero
              (PrimFloat.div (F64.ofZ 1) (F64.ofZ 10)))
           (PrimFloat.div (F64.ofZ 2) (F64.ofZ 10)).
Proof.
  destruct (aggregation_adds_in_order
              [F64Sample.dime; F64Sample.bruno; F64Sample.two_dimes])
    as [acc [Hrun [_ [Htot _]]]].
  exists acc. split; [exact Hrun|].
  intros c Hc. destruct (Htot _ _ Hc) as [_ [_ H]]. exact H.
Defined.

(** C2, as written, fails on a record without first name, on one with an
    empty or blank first name and on one whose amount is missing or
    [NaN]: each of them gets its entry. *)
Lemma malformed_records_are_kept :
  ~ F64.excludes_malformed [F64Sample.unnamed]
  /\ ~ F64.excludes_malformed [F64Sample.empty_name]
  /\ ~ F64.excludes_malformed [F64Sample.blank_name]
  /\ ~ F64.excludes_malformed [F64Sample.no_amount]
  /\ ~ F64.excludes_malformed [F64Sample.nan_amount]
  /\ F64.clientTotals [F64Sample.unnamed] =
     inr [("undefined|silva|",
           F64.Client.mk None (Some "Silva") None (F64.ofZ 5)
             "undefined|silva|")].
Proof.
  unfold F64.excludes_malformed.
  repeat split; try (vm_compute; discriminate).
Qed.

(** C2 (amended): no record is excluded. Whatever its names and amount,
    a record of the input has an entry of the grouped set under its
    identifier (a missing name reading as the text "undefined"), and its
    amount is added to that entry's total at its place among the records
    of that identifier, a missing or [NaN] amount as zero; the
    computation does not fail on it. *)
Theorem no_record_is_excluded (l1 l2 : list F64.Sale.t) (s : F64.Sale.t) :
  exists acc c,
    F64.clientTotals (l1 ++ s :: l2) = inr acc
    /\ get (F64.identifier s) acc = Some c
    /\ F64.Client.id c = F64.identifier s
    /\ F64.Client.totalValor c =
       fold_left PrimFloat.add
         (map F64.amount_of (F64.sharing (F64.identifier s) l1)
          ++ F64.amount_of s
             :: map F64.amount_of (F64.sharing (F64.identifier s) l2))
         PrimFloat.zero
    /\ (F64.numeric (F64.Sale.valor s) = false ->
        F64.amount_of s = PrimFloat.zero).
Proof.
  destruct (F64Facts.entry_for_record_f64 l1 s l2)
    as [s0 [c [_ [Hget [_ [Hid Htot]]]]]].
  exists (fold_left F64.step (l1 ++ s :: l2) []), c.
  split; [apply F64Facts.clientTotals_fold_f64|].
  split; [exact Hget|]. split; [exact Hid|]. split.
  - rewrite Htot. unfold F64.total_of, F64.sum.
    rewrite F64Facts.sharing_app_f64, F64Facts.sharing_own_f64, map_app.
    reflexivity.
  - unfold F64.amount_of, F64.numeric, F64.or_zero, F64.truthy.
    destruct (F64.Sale.valor s) as [x|]; [|reflexivity].
    destruct (PrimFloat.classify x); intros H;
      reflexivity || discriminate H.
Qed.

Lemma no_record_is_excluded_witness :
  exists acc c,
    F64.clientTotals
      ([F64Sample.bruno] ++ F64Sample.no_amount :: [F64Sample.unnamed])
    = inr acc
    /\ get "ana|silva|"%string acc = Some c
    /\ F64.Client.totalValor c = PrimFloat.zero.
Proof.
  destruct (no_record_is_excluded [F64Sample.bruno] [F64Sample.unnamed]
              F64Sample.no_amount)
    as [acc [c [Hrun [Hget [_ [Htot _]]]]]].
  exists acc, c. split; [exact Hrun|]. split; [exact Hget|].
  rewrite Htot. vm_compute. reflexivity.
Defined.

Lemma filter_key_absent {V : Type} (o : object V) k :
  ~ In k (keys o) -> filter (fun kc => String.eqb (fst kc) k) o = [].
Proof.
  unfold keys. induction o as [|[k0 c0] o IH]; simpl; intros Hn;
    [reflexivity|].
  destruct (String.eqb_spec k0 k) as [->|_]; [tauto|]. apply IH. tauto.
Qed.

Lemma filter_key_unique {V : Type} (o : object V) k c :
  NoDup (keys o) -> get k o = Some c ->
  filter (fun kc => String.eqb (fst kc) k) o = [(k, c)].
Proof.
  unfold keys. induction o as [|[k0 c0] o IH]; simpl; [discriminate|].
  intros Hnd Hget. inversion Hnd as [|? ? Hnotin Hnd']; subst.
  rewrite (String.eqb_sym k k0) in Hget.
  destruct (String.eqb_spec k0 k) as [->|Hne].
  - inversion Hget; subst c0. f_equal.
    apply filter_key_absent. exact Hnotin.
  - auto.
Qed.

Lemma same_client_identifier_f64 s1 s2 :
  F64.same_client s1 s2 -> F64.identifier s1 = F64.identifier s2.
Proof.
  intros [Hf [Hl Hi]]. unfold F64.identifier.
  rewrite !toLowerCase_app.
  rewrite (same_name_lower _ _ Hf), (same_name_lower _ _ Hl).
  unfold same_letters in Hi. rewrite Hi. reflexivity.
Qed.

(** C5: two records whose first name, last name and handle are equal up
    to letter case have the same identifier, and the grouped set of any
    input that holds both has exactly one entry under it, whose total is
    what the amounts of the records of that identifier, both of them
    included at their places, add up to. *)
Theorem same_letters_one_entry
    (l1 l2 l3 : list F64.Sale.t) (s1 s2 : F64.Sale.t) :
  F64.same_client s1 s2 ->
  F64.identifier s1 = F64.identifier s2
  /\ exists acc c,
       F64.clientTotals (l1 ++ s1 :: l2 ++ s2 :: l3) = inr acc
       /\ F64.entries_for (F64.identifier s1) acc =
          [(F64.identifier s1, c)]
       /\ F64.entries_for (F64.identifier s2) acc =
          [(F64.identifier s1, c)]
       /\ F64.Client.totalValor c =
          fold_left PrimFloat.add
            (map F64.amount_of (F64.sharing (F64.identifier s1) l1)
             ++ F64.amount_of s1
                :: map F64.amount_of (F64.sharing (F64.identifier s1) l2)
             ++ F64.amount_of s2
                :: map F64.amount_of (F64.sharing (F64.identifier s1) l3))
            PrimFloat.zero.
Proof.
  intros Hsame. pose proof (same_client_identifier_f64 s1 s2 Hsame) as Hk.
  split; [exact Hk|].
  destruct (F64Facts.entry_for_record_f64 l1 s1 (l2 ++ s2 :: l3))
    as [s0 [c [_ [Hget [_ [_ Htot]]]]]].
  assert (Hone : F64.entries_for (F64.identifier s1)
                   (fold_left F64.step (l1 ++ s1 :: l2 ++ s2 :: l3) []) =
                 [(F64.identifier s1, c)]).
  { apply filter_key_unique;
      [apply F64Facts.NoDup_keys_totals_f64|exact Hget]. }
  exists (fold_left F64.step (l1 ++ s1 :: l2 ++ s2 :: l3) []), c.
  split; [apply F64Facts.clientTotals_fold_f64|]. split; [exact Hone|].
  split; [rewrite <- Hk; exact Hone|].
  rewrite Htot. unfold F64.total_of, F64.sum.
  rewrite F64Facts.sharing_app_f64, F64Facts.sharing_own_f64.
  rewrite F64Facts.sharing_app_f64.
  rewrite Hk at 3. rewrite F64Facts.sharing_own_f64. rewrite <- Hk.
  rewrite map_app. simpl map. rewrite map_app. reflexivity.
Qed.

Lemma same_letters_one_entry_witness :
  F64.same_client F64Sample.ana F64Sample.ana_caps
  /\ exists acc c,
       F64.clientTotals
         ([] ++ F64Sample.ana :: [F64Sample.bruno]
          ++ F64Sample.ana_caps :: []) = inr acc
       /\ F64.entries_for "ana|silva|" acc = [("ana|silva|"%string, c)]
       /\ F64.Client.totalValor c = F64.ofZ 150.
Proof.
  assert (H : F64.same_client F64Sample.ana F64Sample.ana_caps).
  { repeat split. }
  split; [exact H|].
  destruct (same_letters_one_entry [] [F64Sample.bruno] []
              F64Sample.ana F64Sample.ana_caps H)
    as [_ [acc [c [Hrun [Hone [_ Htot]]]]]].
  exists acc, c. split; [exact Hrun|]. split; [exact Hone|].
  rewrite Htot. vm_compute. reflexivity.
Defined.

Lemma negative_truthy x : F64.negative x = true -> F64.truthy x = true.
Proof.
  unfold F64.negative, F64.truthy.
  destruct (PrimFloat.classify x); intros H; reflexivity || discriminate H.
Qed.

(** C10: the aggregation checks neither the sign nor the finiteness of
    an amount: every amount other than [NaN] and zero, and so every
    negative and every infinite one, is added as it is to the total of
    its client, at its place among the records of that client. A total
    can be negative or infinite, and a later record can move a client
    down the leaderboard. *)
Theorem amounts_are_not_checked :
  (forall (l1 l2 : list F64.Sale.t) (s : F64.Sale.t) (x : PrimFloat.float),
     F64.Sale.valor s = Some x -> F64.truthy x = true ->
     exists acc c,
       F64.clientTotals (l1 ++ s :: l2) = inr acc
       /\ get (F64.identifier s) acc = Some c
       /\ F64.Client.totalValor c =
          fold_left PrimFloat.add
            (map F64.amount_of (F64.sharing (F64.identifier s) l1)
             ++ x :: map F64.amount_of (F64.sharing (F64.identifier s) l2))
            PrimFloat.zero)
  /\ (forall x, F64.negative x = true -> F64.truthy x = true)
  /\ (forall x, PrimFloat.classify x = FloatClass.PInf
                \/ PrimFloat.classify x = FloatClass.NInf ->
                F64.truthy x = true)
  /\ F64.rankedClients [F64Sample.ana; F64Sample.bruno] =
     inr [F64.Client.mk (Some "Ana") (Some "Silva") None (F64.ofZ 100)
            "ana|silva|";
          F64.Client.mk (Some "Bruno") (Some "Costa") (Some "@b")
            (F64.ofZ 30) "bruno|costa|@b"]
  /\ F64.rankedClients
       [F64Sample.ana; F64Sample.bruno; F64Sample.refund] =
     inr [F64.Client.mk (Some "Bruno") (Some "Costa") (Some "@b")
            (F64.ofZ 30) "bruno|costa|@b";
          F64.Client.mk (Some "Ana") (Some "Silva") None
            (PrimFloat.opp (F64.ofZ 20)) "ana|silva|"]
  /\ F64.negative (PrimFloat.opp (F64.ofZ 20)) = true
  /\ F64.clientTotals [F64Sample.ana; F64Sample.boundless] =
     inr [("ana|silva|",
           F64.Client.mk (Some "Ana") (Some "Silva") None
             PrimFloat.infinity "ana|silva|")].
Proof.
  split; [|split; [exact negative_truthy|split]].
  - intros l1 l2 s x Hv Hx.
    destruct (F64Facts.entry_for_record_f64 l1 s l2)
      as [s0 [c [_ [Hget [_ [_ Htot]]]]]].
    exists (fold_left F64.step (l1 ++ s :: l2) []), c.
    split; [apply F64Facts.clientTotals_fold_f64|].
    split; [exact Hget|].
    rewrite Htot. unfold F64.total_of, F64.sum.
    rewrite F64Facts.sharing_app_f64, F64Facts.sharing_own_f64, map_app.
    simpl map. unfold F64.amount_of at 2. rewrite Hv. simpl.
    rewrite Hx. reflexivity.
  - intros x [H|H]; unfold F64.truthy; rewrite H; reflexivity.
  - repeat split; vm_compute; reflexivity.
Qed.

Lemma amounts_are_not_checked_witness :
  F64.Sale.valor F64Sample.refund = Some (PrimFloat.opp (F64.ofZ 120))
  /\ F64.truthy (PrimFloat.opp (F64.ofZ 120)) = true
  /\ exists acc c,
       F64.clientTotals ([F64Sample.ana] ++ F64Sample.refund :: [])
       = inr acc
       /\ get "ana|silva|"%string acc = Some c
       /\ F64.Client.totalValor c = PrimFloat.opp (F64.ofZ 20).
Proof.
  split; [reflexivity|]. split; [reflexivity|].
  destruct (proj1 amounts_are_not_checked
              [F64Sample.ana] [] F64Sample.refund
              (PrimFloat.opp (F64.ofZ 120)) eq_refl eq_refl)
    as [acc [c [Hrun [Hget Htot]]]].
  exists acc, c. split; [exact Hrun|]. split; [exact Hget|].
  rewrite Htot. vm_compute. reflexivity.
Defined.

(** C8: in the panel of a leaderboard, the row of the entry at index [i]
    has rank [i + 1]; the rows of rank 1 to 3 print the total of their
    own entry, as [R$] and [toFixed(2)] of that number, and every row of
    rank above 3 prints the privacy sentinel and no number. *)
Theorem redaction_by_rank (clients : list F64.Client.t) (i : nat)
    (c : F64.Client.t) :
  nth_error clients i = Some c ->
  exists rows r,
    F64.RankingPanel clients = F64.Ranking rows
    /\ List.length rows = List.length clients
    /\ nth_error rows i = Some r
    /\ F64.position r = (i + 1)%nat
    /\ ((F64.position r <= 3)%nat ->
        F64.cell r = F64.Shown (F64.Client.totalValor c))
    /\ ((3 < F64.position r)%nat -> F64.cell r = F64.ValorPrivado).
Proof.
  intros Hc. exists (mapi F64.renderRow clients), (F64.renderRow c i).
  split; [|split; [|split; [|split; [|split]]]].
  - unfold F64.RankingPanel.
    destruct clients; [destruct i; discriminate|]. reflexivity.
  - apply length_map_from.
  - unfold mapi. rewrite nth_error_map_from, Hc. reflexivity.
  - reflexivity.
  - simpl. intros Hle. destruct (Nat.ltb_spec i 3); [reflexivity|lia].
  - simpl. intros Hlt. destruct (Nat.ltb_spec i 3); [lia|reflexivity].
Qed.

Lemma redaction_by_rank_witness :
  exists out rows r1 r4,
    F64.rankedClients
      [F64Sample.ana; F64Sample.bruno; F64Sample.unnamed;
       F64Sample.big; F64Sample.ana_caps] = inr out
    /\ F64.RankingPanel out = F64.Ranking rows
    /\ nth_error rows 0 = Some r1 /\ nth_error rows 3 = Some r4
    /\ F64.cell r1 = F64.Shown (F64.ofZ 9007199254740992)
    /\ F64.cell r4 = F64.ValorPrivado.
Proof.
  pose (top := F64.Client.mk (Some "x") (Some "y") None
                 (F64.ofZ 9007199254740992) "x|y|").
  pose (last := F64.Client.mk None (Some "Silva") None (F64.ofZ 5)
                  "undefined|silva|").
  pose (out := [top;
                F64.Client.mk (Some "Ana") (Some "Silva") None
                  (F64.ofZ 150) "ana|silva|";
                F64.Client.mk (Some "Bruno") (Some "Costa") (Some "@b")
                  (F64.ofZ 30) "bruno|costa|@b";
                last]).
  destruct (redaction_by_rank out 0 top eq_refl)
    as [rows [r1 [Hp [_ [Hr1 [Hpos1 [Hshown _]]]]]]].
  destruct (redaction_by_rank out 3 last eq_refl)
    as [rows' [r4 [Hp' [_ [Hr4 [Hpos4 [_ Hpriv]]]]]]].
  rewrite Hp in Hp'. injection Hp' as <-.
  exists out, rows, r1, r4.
  split; [vm_compute; reflexivity|]. split; [exact Hp|].
  split; [exact Hr1|]. split; [exact Hr4|]. split.
  - apply Hshown. rewrite Hpos1. simpl. lia.
  - apply Hpriv. rewrite Hpos4. simpl. lia.
Defined.

(** ** The grouped set and the leaderboard, on doubles *)

Lemma insert_perm_f64 {A : Type} (cmp : A -> A -> PrimFloat.float) x l :
  Permutation (F64.insert cmp x l) (x :: l).
Proof.
  induction l as [|y l IH]; simpl.
  - apply Permutation_refl.
  - destruct (PrimFloat.ltb PrimFloat.zero (cmp x y)).
    + eapply perm_trans; [apply perm_skip, IH|apply perm_swap].
    + apply Permutation_refl.
Qed.

Lemma sort_perm_f64 {A : Type} (cmp : A -> A -> PrimFloat.float) l :
  Permutation (F64.sort cmp l) l.
Proof.
  induction l as [|x l IH]; simpl.
  - constructor.
  - eapply perm_trans; [apply insert_perm_f64|apply perm_skip, IH].
Qed.

Lemma ids_are_keys_f64 cs :
  map F64.Client.id (values (fold_left F64.step cs [])) =
  keys (fold_left F64.step cs []).
Proof.
  assert (H : forall k c, In (k, c) (fold_left F64.step cs []) ->
                F64.Client.id c = k).
  { intros k c Hin. apply F64Facts.entry_of_totals_f64 in Hin. tauto. }
  revert H. generalize (fold_left F64.step cs []).
  unfold values, keys. intros o. induction o as [|[k c] o IH];
    intros H; simpl; [reflexivity|].
  rewrite (H k c) by (simpl; auto). f_equal.
  apply IH. intros k' c' Hin. apply H. simpl. auto.
Qed.

(** X5: the [id]s of the leaderboard, the React keys of its rows, are
    pairwise different, and each entry is the one of a record of the
    input: its [id] is the identifier of that record and its total what
    the amounts filed under it add up to, added in the order of the
    input. *)
Theorem leaderboard_keys_are_unique (cs : list F64.Sale.t) :
  exists out,
    F64.rankedClients cs = inr out
    /\ NoDup (map F64.Client.id out)
    /\ forall c, In c out ->
         exists s, In s cs /\ F64.Client.id c = F64.identifier s
           /\ F64.Client.totalValor c =
              fold_left PrimFloat.add
                (map F64.amount_of (F64.sharing (F64.identifier s) cs))
                PrimFloat.zero.
Proof.
  set (sorted := F64.sort F64.byTotalDesc
                   (values (fold_left F64.step cs []))).
  assert (Hnd : NoDup (map F64.Client.id sorted)).
  { eapply Permutation_NoDup.
    - apply Permutation_map, Permutation_sym, sort_perm_f64.
    - rewrite ids_are_keys_f64. apply F64Facts.NoDup_keys_totals_f64. }
  exists (firstn 10 sorted).
  split; [apply F64Facts.rankedClients_eq_f64|]. split.
  - rewrite <- (firstn_skipn 10 sorted), map_app in Hnd.
    eapply NoDup_app_remove_r. exact Hnd.
  - intros c Hc.
    assert (Hc' : In c sorted).
    { rewrite <- (firstn_skipn 10 sorted). apply in_or_app. auto. }
    apply (Permutation_in _ (sort_perm_f64 _ _)) in Hc'.
    apply in_values in Hc'. destruct Hc' as [k Hin].
    apply F64Facts.entry_of_totals_f64 in Hin.
    destruct Hin as [Hid [_ [Htot [s0 [Hs0 _]]]]].
    assert (Hin0 : In s0 (F64.sharing k cs)).
    { destruct (F64.sharing k cs); simpl in Hs0; [discriminate|].
      inversion Hs0. simpl. auto. }
    apply F64Facts.sharing_in_f64 in Hin0. destruct Hin0 as [Hcs Hk].
    exists s0. split; [exact Hcs|]. split; [congruence|].
    rewrite Hk. exact Htot.
Qed.

Lemma unseen_ext_f64 cs : forall seen seen',
  (forall x, In x seen <-> In x seen') ->
  F64.unseen seen cs = F64.unseen seen' cs.
Proof.
  induction cs as [|c cs IH]; intros seen seen' H; simpl; [reflexivity|].
  rewrite (existsb_eqb_ext _ seen seen' H).
  destruct (existsb (String.eqb (F64.identifier c)) seen').
  - apply IH, H.
  - f_equal. apply IH. intros x. simpl. rewrite H. reflexivity.
Qed.

Lemma keys_fold_f64 cs : forall acc,
  keys (fold_left F64.step cs acc) =
  keys acc ++ map F64.identifier (F64.unseen (keys acc) cs).
Proof.
  induction cs as [|s cs IH]; intros acc; simpl.
  - rewrite app_nil_r. reflexivity.
  - rewrite IH.
    assert (Hk : keys (F64.step acc s) =
                 if existsb (String.eqb (F64.identifier s)) (keys acc)
                 then keys acc else keys acc ++ [F64.identifier s]).
    { unfold F64.step. apply keys_set. }
    rewrite Hk.
    destruct (existsb (String.eqb (F64.identifier s)) (keys acc)).
    + reflexivity.
    + rewrite <- app_assoc. simpl. do 3 f_equal.
      apply unseen_ext_f64. intros x. rewrite in_app_iff. simpl. tauto.
Qed.

(** A record that [uniqueClients] keeps is the first of its identifier. *)
Lemma unseen_first_f64 cs : forall seen s,
  In s (F64.unseen seen cs) ->
  hd_error (F64.sharing (F64.identifier s) cs) = Some s.
Proof.
  induction cs as [|c cs IH]; intros seen s; simpl; [intros []|].
  assert (Hseen : forall seen', In s (F64.unseen seen' cs) ->
            In (F64.identifier c) seen' ->
            F64.identifier c <> F64.identifier s).
  { intros seen' Hin Hc E. rewrite E in Hc. clear IH.
    revert seen' Hin Hc. induction cs as [|d cs IHcs]; intros seen' Hin Hc;
      simpl in Hin; [destruct Hin|].
    destruct (existsb (String.eqb (F64.identifier d)) seen') eqn:Ed.
    - eauto.
    - destruct Hin as [<-|Hin].
      + apply existsb_eqb_In in Hc. congruence.
      + apply (IHcs (F64.identifier d :: seen') Hin). simpl. auto. }
  unfold F64.sharing. simpl.
  destruct (existsb (String.eqb (F64.identifier c)) seen) eqn:E.
  - intros Hin. apply existsb_eqb_In in E.
    pose proof (Hseen seen Hin E) as N.
    destruct (String.eqb_spec (F64.identifier c) (F64.identifier s));
      [contradiction|]. eapply IH. exact Hin.
  - intros [<-|Hin].
    + rewrite String.eqb_refl. reflexivity.
    + assert (N : F64.identifier c <> F64.identifier s).
      { apply (Hseen _ Hin). simpl. auto. }
      destruct (String.eqb_spec (F64.identifier c) (F64.identifier s));
        [contradiction|]. eapply IH. exact Hin.
Qed.

(** X2: the grouped set of the ranking lists one entry per unique client
    of the sale form, in the same order: the entry of a unique client
    shows its names and handle and holds what the amounts of all the
    records with its identifier add up to, added from zero in the order
    of the input. *)
Theorem grouped_set_of_unique_clients (cs : list F64.Sale.t) :
  exists acc,
    F64.clientTotals cs = inr acc
    /\ values acc =
       map (fun s =>
              F64.Client.mk (F64.Sale.firstName s) (F64.Sale.lastName s)
                (F64.Sale.instagram s)
                (fold_left PrimFloat.add
                   (map F64.amount_of (F64.sharing (F64.identifier s) cs))
                   PrimFloat.zero)
                (F64.identifier s))
         (F64.uniqueClients cs).
Proof.
  exists (fold_left F64.step cs []).
  split; [apply F64Facts.clientTotals_fold_f64|].
  set (f := fun k =>
    match F64.sharing k cs with
    | s :: _ => F64.added (F64.fresh s) (F64.sharing k cs)
    | [] => F64.Client.mk None None None PrimFloat.zero k
    end).
  rewrite (values_by_keys _ f).
  - rewrite keys_fold_f64. simpl app. rewrite map_map.
    apply map_ext_in. intros s Hs. unfold f.
    apply unseen_first_f64 in Hs.
    destruct (F64.sharing (F64.identifier s) cs) as [|s0 r] eqn:E;
      [discriminate|].
    simpl in Hs. inversion Hs; subst s0.
    destruct (F64Facts.added_fields_f64 (s :: r) (F64.fresh s))
      as [H1 [H2 [H3 [H4 H5]]]].
    destruct (F64.added (F64.fresh s) (s :: r)) as [a b c d e].
    simpl in *. congruence.
  - apply F64Facts.NoDup_keys_totals_f64.
  - intros k Hk. rewrite F64Facts.get_fold_f64.
    change (get k []) with (@None F64.Client.t). cbv beta iota.
    unfold f. destruct (F64.sharing k cs) as [|s0 r] eqn:E;
      [|reflexivity].
    exfalso. apply F64Facts.in_keys_fold_f64 in Hk.
    destruct Hk as [[]|Hk]. apply in_map_iff in Hk.
    destruct Hk as [s [Hs Hin]].
    assert (Hsh : In s (F64.sharing k cs)).
    { unfold F64.sharing. apply filter_In. split; [exact Hin|].
      apply String.eqb_eq. exact Hs. }
    rewrite E in Hsh. destruct Hsh.
Qed.

(** ** Bounding *)

Lemma identity_identifier s1 s2 :
  identity s1 = identity s2 -> identifier s1 = identifier s2.
Proof.
  unfold identity. intros Hid. inversion Hid as [[Hf Hl Hi]].
  rewrite !identifier_fields.
  rewrite (lower_name _ _ Hf), (lower_name _ _ Hl), Hi. reflexivity.
Qed.

Lemma identifier_identity s1 s2 :
  sep_free s1 -> sep_free s2 ->
  identifier s1 = identifier s2 -> identity s1 = identity s2.
Proof.
  intros [[f1 [Hf1 Sf1]] [[l1 [Hl1 Sl1]] Si1]].
  intros [[f2 [Hf2 Sf2]] [[l2 [Hl2 Sl2]] Si2]].
  rewrite !identifier_fields. unfold identity.
  rewrite Hf1, Hl1, Hf2, Hl2. simpl. intros Hk.
  apply sep_split in Hk; try (rewrite has_sep_lower; assumption).
  destruct Hk as [-> Hk].
  apply sep_split in Hk; try (rewrite has_sep_lower; assumption).
  destruct Hk as [-> ->]. reflexivity.
Qed.

(** Two labellings that agree on which elements are alike have as many
    distinct labels. *)
Lemma nodup_length_alike {A B C : Type}
    (decB : forall x y : B, {x = y} + {x <> y})
    (decC : forall x y : C, {x = y} + {x <> y})
    (f : A -> B) (g : A -> C) (l : list A) :
  (forall x y, In x l -> In y l -> (f x = f y <-> g x = g y)) ->
  List.length (nodup decB (map f l)) = List.length (nodup decC (map g l)).
Proof.
  induction l as [|a l IH]; intros H; [reflexivity|].
  assert (IH' : List.length (nodup decB (map f l)) =
                List.length (nodup decC (map g l))).
  { apply IH. intros x y Hx Hy. apply H; simpl; auto. }
  assert (Hin : In (f a) (map f l) <-> In (g a) (map g l)).
  { rewrite !in_map_iff. split; intros [y [Hy Hl]]; exists y;
      (split; [|exact Hl]); apply (H y a); simpl; auto. }
  simpl.
  destruct (in_dec decB (f a) (map f l)) as [Hb|Hb],
           (in_dec decC (g a) (map g l)) as [Hc|Hc]; simpl; tauto || auto.
Qed.

(** C7, as written, fails on two records whose fields hold the
    separator: they are two client identities, and the leaderboard has
    one entry. *)
Lemma bounded_by_identities_fails :
  ~ bounded_by_identities [Sample.pipe_first; Sample.pipe_last]
  /\ List.length (identities [Sample.pipe_first; Sample.pipe_last]) = 2%nat
  /\ rankedClients [Sample.pipe_first; Sample.pipe_last] =
     inr [Client.mk (Some "a|b") (Some "c") None 3 "a|b|c|"].
Proof.
  split; [|split; vm_compute; reflexivity].
  intros [out [Hrun Hlen]]. vm_compute in Hrun.
  injection Hrun as <-. vm_compute in Hlen. discriminate Hlen.
Qed.

(** C7 (amended): the length of the leaderboard is the minimum of 10 and
    the number of distinct identifiers, the lower-cased joined keys,
    among the records; when every record carries both names and no field
    holds the separator, that is the minimum of 10 and the number of
    distinct client identities. *)
Theorem leaderboard_length_by_key (cs : list Sale.t) :
  exists out,
    rankedClients cs = inr out
    /\ List.length out =
       Nat.min (List.length (nodup string_dec (map identifier cs))) 10
    /\ ((forall s, In s cs -> sep_free s) ->
        List.length out = Nat.min (List.length (identities cs)) 10).
Proof.
  eexists. split; [apply rankedClients_eq|].
  assert (Hlen : List.length
            (firstn 10 (sort byTotalDesc (values (fold_left step cs [])))) =
          Nat.min (List.length (nodup string_dec (map identifier cs))) 10).
  { rewrite length_firstn, length_sort, length_values, length_keys_totals.
    apply Nat.min_comm. }
  split; [exact Hlen|].
  intros Hfree. rewrite Hlen. f_equal. unfold identities.
  apply nodup_length_alike. intros x y Hx Hy. split.
  - apply identifier_identity; auto.
  - apply identity_identifier.
Qed.

Lemma leaderboard_length_by_key_witness :
  exists out,
    rankedClients [Sample.ana; Sample.bruno; Sample.ana_caps] = inr out
    /\ List.length out = 2%nat
    /\ List.length
         (identities [Sample.ana; Sample.bruno; Sample.ana_caps]) = 2%nat.
Proof.
  destruct (leaderboard_length_by_key
              [Sample.ana; Sample.bruno; Sample.ana_caps])
    as [out [Hrun [Hkey Hid]]].
  exists out. split; [exact Hrun|]. split; [exact Hkey|].
  vm_compute. reflexivity.
Defined.
